(** * RSA modular-exponentiation primitives of [crypto/rsa/rsa_impl.c]

    A shallow embedding of the three functions of the file

      - [GFp_rsa_check_modulus_and_exponent]
      - [GFp_rsa_public_decrypt]
      - [GFp_rsa_private_transform]

    The C code is written against the big-integer interface of [bn.h], the
    blinding interface and the error queue of [err.h]; none of them is part
    of the file.  The interface is a type class ([BN_ENGINE]); the three
    functions are embedded once, for every engine.  A reference engine
    ([Ref.engine]) gives the operations their mathematical meaning. *)

From Stdlib Require Import ZArith Lia List Bool Strings.Byte Znumtheory Zpow_facts Zcong.
From Stdlib Require Import Zmod.ZmodInv.
Import ListNotations.

#[local] Open Scope Z_scope.

(** ** Byte buffers

    A C buffer [uint8_t *p, size_t len] is a list of bytes; [len] is its
    length.  Integers are stored big-endian. *)

Definition byte_val (b : byte) : Z := Z.of_N (Byte.to_N b).

Definition byte_of_Z (z : Z) : byte :=
  match Byte.of_N (Z.to_N (z mod 256)) with
  | Some b => b
  | None => x00
  end.

Fixpoint be_value (bs : list byte) : Z :=
  match bs with
  | [] => 0
  | b :: t => byte_val b * 256 ^ Z.of_nat (length t) + be_value t
  end.

Fixpoint be_bytes (len : nat) (z : Z) : list byte :=
  match len with
  | O => []
  | S k => byte_of_Z (z / 256 ^ Z.of_nat k) :: be_bytes k z
  end.

(** ** Big integers as the code sees them

    [struct bignum_st]: the words [d] (least significant first), the number
    [top] of words in use and the sign.  The fault check of the private
    transform reads [top] and [d] directly. *)

(** The size of a word ([BN_ULONG]) in bits and in bytes.  [bn.h] is not
    part of the file; the 64-bit build is taken. *)
Definition BN_BITS2 : Z := 64.
Definition BN_BYTES : Z := 8.

Record BIGNUM : Type := mkBIGNUM {
  d : list Z;
  top : nat;
  neg : bool
}.

Fixpoint words_value (ws : list Z) : Z :=
  match ws with
  | [] => 0
  | w :: t => w + 2 ^ BN_BITS2 * words_value t
  end.

Fixpoint words_of (fuel : nat) (z : Z) : list Z :=
  match fuel with
  | O => []
  | S f => if z =? 0 then [] else z mod 2 ^ BN_BITS2 :: words_of f (z / 2 ^ BN_BITS2)
  end.

Definition bn_val (b : BIGNUM) : Z :=
  let m := words_value (firstn (top b) (d b)) in
  if neg b then - m else m.

Definition bn_of_Z (z : Z) : BIGNUM :=
  let ws := words_of (S (Z.to_nat (Z.log2 (Z.abs z)))) (Z.abs z) in
  {| d := ws; top := length ws; neg := z <? 0 |}.

(** [struct bn_mont_ctx_st]: the code reads the modulus [N] of a context. *)
Record BN_MONT_CTX : Type := mkMONT {
  N : BIGNUM
}.

(** [struct rsa_st], the fields the private transform reads. *)
Record RSA : Type := mkRSA {
  e : BIGNUM;
  dmp1 : BIGNUM;
  dmq1 : BIGNUM;
  mont_n : BN_MONT_CTX;
  mont_p : BN_MONT_CTX;
  mont_q : BN_MONT_CTX;
  mont_qq : BN_MONT_CTX;
  qmn_mont : BIGNUM;
  iqmp_mont : BIGNUM
}.

(** Modelled from the spec: the blinding context is opaque to the file; the
    spec describes it as mutable state holding a random blinding factor and
    its modular inverse. *)
Record BN_BLINDING : Type := mkBLINDING {
  A : BIGNUM;
  Ai : BIGNUM
}.

(** Modelled from the spec: the randomness source hands out values to the
    blinding context and may fail; here it is the finite supply of values
    it will hand out, and it fails when the supply is used up. *)
Definition RAND : Type := list Z.

(** ** The error queue *)

(** The reasons the file passes to [OPENSSL_PUT_ERROR]. *)
Inductive err_reason : Type :=
| RSA_R_KEY_SIZE_TOO_SMALL
| RSA_R_MODULUS_TOO_LARGE
| RSA_R_BAD_E_VALUE
| RSA_R_OUTPUT_BUFFER_TOO_SMALL
| RSA_R_DATA_LEN_NOT_EQUAL_TO_MOD_LEN
| RSA_R_DATA_TOO_LARGE_FOR_MODULUS
| ERR_R_INTERNAL_ERROR.

(** The error kinds of the specification, and the kind of each reason. *)
Inductive ErrorKind : Type :=
| KeySizeTooSmall
| ModulusTooLarge
| BadExponent
| BufferSizeMismatch
| DataTooLargeForModulus
| InternalError.

Definition error_kind (r : err_reason) : ErrorKind :=
  match r with
  | RSA_R_KEY_SIZE_TOO_SMALL => KeySizeTooSmall
  | RSA_R_MODULUS_TOO_LARGE => ModulusTooLarge
  | RSA_R_BAD_E_VALUE => BadExponent
  | RSA_R_OUTPUT_BUFFER_TOO_SMALL => BufferSizeMismatch
  | RSA_R_DATA_LEN_NOT_EQUAL_TO_MOD_LEN => BufferSizeMismatch
  | RSA_R_DATA_TOO_LARGE_FOR_MODULUS => DataTooLargeForModulus
  | ERR_R_INTERNAL_ERROR => InternalError
  end.

(** ** The interface of the big-integer engine

    One field per function of [bn.h], [blinding.c] and [mem.c] the file
    calls.  A C function that writes its result through a pointer and
    returns 0 on failure returns an [option]; [GFp_BN_bin2bn] returns
    [None] for [NULL].  [GFp_BN_bn2bin_padded] is the one function that
    receives the caller's buffer for writing: it takes the buffer as it is
    and returns the buffer as it leaves it, with its return code.
    [GFp_BN_BLINDING_convert] updates the blinding context and uses the
    randomness source. *)
Class BN_ENGINE : Type := {
  GFp_BN_num_bits : BIGNUM -> Z;
  GFp_BN_num_bytes : BIGNUM -> Z;
  GFp_BN_is_odd : BIGNUM -> bool;
  GFp_BN_ucmp : BIGNUM -> BIGNUM -> Z;
  GFp_BN_cmp : BIGNUM -> BIGNUM -> Z;
  GFp_BN_bin2bn : list byte -> option BIGNUM;
  GFp_BN_bn2bin_padded : list byte -> BIGNUM -> bool * list byte;
  GFp_BN_mod_exp_mont_vartime :
    BIGNUM -> BIGNUM -> BIGNUM -> option BN_MONT_CTX -> option BIGNUM;
  GFp_BN_mod_exp_mont_consttime :
    BIGNUM -> BIGNUM -> BN_MONT_CTX -> option BIGNUM;
  GFp_BN_reduce_mont : BIGNUM -> BN_MONT_CTX -> option BIGNUM;
  GFp_BN_mod_sub_quick : BIGNUM -> BIGNUM -> BIGNUM -> option BIGNUM;
  GFp_BN_mod_mul_mont : BIGNUM -> BIGNUM -> BN_MONT_CTX -> option BIGNUM;
  GFp_BN_add : BIGNUM -> BIGNUM -> option BIGNUM;
  GFp_BN_BLINDING_convert :
    BIGNUM -> BN_BLINDING -> RSA -> RAND -> option BIGNUM * BN_BLINDING * RAND;
  GFp_BN_BLINDING_invert :
    BIGNUM -> BN_BLINDING -> BN_MONT_CTX -> option BIGNUM;
  GFp_memcmp : list Z -> list Z -> Z -> Z
}.

(** ** The state a call works on, and its control flow

    [buffer] is the caller's writable buffer ([out] of the public
    transform, [inout] of the private one). *)
Record world : Type := mkWorld {
  buffer : list byte;
  blinding : BN_BLINDING;
  rng : RAND;
  err_queue : list err_reason
}.

(** A statement falls through with a value, jumps to the [err:] label, or
    stops the program at a failed [assert]. *)
Inductive flow (X : Type) : Type :=
| Next (x : X)
| Goto_err
| Assert_failed.
Arguments Next {X} x.
Arguments Goto_err {X}.
Arguments Assert_failed {X}.

Definition M (X : Type) : Type := world -> flow X * world.

Definition ret {X} (x : X) : M X := fun w => (Next x, w).

Definition bind {X Y} (m : M X) (k : X -> M Y) : M Y :=
  fun w =>
    match m w with
    | (Next x, w') => k x w'
    | (Goto_err, w') => (Goto_err, w')
    | (Assert_failed, w') => (Assert_failed, w')
    end.

Declare Scope c_scope.
Delimit Scope c_scope with c.
Notation "x <- m ;; k" := (bind m (fun x => k))
  (at level 61, m at next level, right associativity) : c_scope.
Notation "m ;; k" := (bind m (fun _ => k))
  (at level 61, right associativity) : c_scope.
#[local] Open Scope c_scope.

Definition goto_err {X} : M X := fun w => (Goto_err, w).

Definition c_assert (b : bool) : M unit :=
  fun w => if b then (Next tt, w) else (Assert_failed, w).

Definition OPENSSL_PUT_ERROR (r : err_reason) : M unit :=
  fun w => (Next tt,
            {| buffer := buffer w; blinding := blinding w; rng := rng w;
               err_queue := err_queue w ++ [r] |}).

(** [if (c) { s }] where [s] does not fall through. *)
Definition when (c : bool) (s : M unit) : M unit :=
  if c then s else ret tt.

(** The result of a call to an engine function, with what the code does
    when the call fails. *)
Definition call {X} (r : option X) (on_fail : M X) : M X :=
  match r with
  | Some x => ret x
  | None => on_fail
  end.

Definition fail_with {X} (r : err_reason) : M X :=
  OPENSSL_PUT_ERROR r ;; goto_err.

(** What a call of one of the two transforms leaves: the [int] it returns,
    or the abort of a failed assertion. *)
Inductive outcome : Type :=
| Returned (r : Z)
| Aborted.

Definition at_err_label (ret_on_fallthrough : Z) (body : M unit) : world -> outcome * world :=
  fun w =>
    match body w with
    | (Next _, w') => (Returned ret_on_fallthrough, w')
    | (Goto_err, w') => (Returned 0, w')
    | (Assert_failed, w') => (Aborted, w')
    end.

(** ** The functions of [rsa_impl.c] *)

Section Source.

Context {E : BN_ENGINE}.

Definition kMaxExponentBits : Z := 33.

(** [GFp_rsa_check_modulus_and_exponent], lines 75-127.  [rsa_bits] and
    [e_bits] are [unsigned], [min_bits] and [max_bits] are [size_t]; they
    are only compared, so no arithmetic can wrap. *)
Definition GFp_rsa_check_modulus_and_exponent
    (n e : BIGNUM) (min_bits max_bits : Z) : M Z :=
  let rsa_bits := GFp_BN_num_bits n in
  if rsa_bits <? min_bits then
    OPENSSL_PUT_ERROR RSA_R_KEY_SIZE_TOO_SMALL ;; ret 0
  else if (16 * 1024 <? rsa_bits) || (max_bits <? rsa_bits) then
    OPENSSL_PUT_ERROR RSA_R_MODULUS_TOO_LARGE ;; ret 0
  else
    let e_bits := GFp_BN_num_bits e in
    if e_bits <? 2 then
      OPENSSL_PUT_ERROR RSA_R_BAD_E_VALUE ;; ret 0
    else if kMaxExponentBits <? e_bits then
      OPENSSL_PUT_ERROR RSA_R_BAD_E_VALUE ;; ret 0
    else if negb (GFp_BN_is_odd e) then
      OPENSSL_PUT_ERROR RSA_R_BAD_E_VALUE ;; ret 0
    else if rsa_bits <=? kMaxExponentBits then
      OPENSSL_PUT_ERROR RSA_R_KEY_SIZE_TOO_SMALL ;; ret 0
    else
      c_assert (0 <? GFp_BN_ucmp n e) ;;
      ret 1.

(** [GFp_RSA_size], lines 129-131. *)
Definition GFp_RSA_size (rsa : RSA) : Z :=
  GFp_BN_num_bytes (N (mont_n rsa)).

(** The one write to the caller's buffer. *)
Definition bn2bin_padded_to_buffer (b : BIGNUM) : M bool :=
  fun w =>
    let '(ok, buf) := GFp_BN_bn2bin_padded (buffer w) b in
    (Next ok,
     {| buffer := buf; blinding := blinding w; rng := rng w;
        err_queue := err_queue w |}).

(** [GFp_rsa_public_decrypt], lines 143-208: the statements up to the
    [err:] label.  [out] is the buffer of the state, [out_len] its
    length. *)
Definition GFp_rsa_public_decrypt_body
    (public_key_n public_key_e in_ : list byte) (min_bits max_bits : Z)
    : M unit :=
  n <- call (GFp_BN_bin2bn public_key_n) (fail_with ERR_R_INTERNAL_ERROR) ;;
  e <- call (GFp_BN_bin2bn public_key_e) (fail_with ERR_R_INTERNAL_ERROR) ;;
  let rsa_size := GFp_BN_num_bytes n in
  out_len <- (fun w => (Next (Z.of_nat (length (buffer w))), w)) ;;
  let in_len := Z.of_nat (length in_) in
  when (negb (out_len =? rsa_size))
       (fail_with RSA_R_OUTPUT_BUFFER_TOO_SMALL) ;;
  when (negb (in_len =? rsa_size))
       (fail_with RSA_R_DATA_LEN_NOT_EQUAL_TO_MOD_LEN) ;;
  ok <- GFp_rsa_check_modulus_and_exponent n e min_bits max_bits ;;
  when (ok =? 0) goto_err ;;
  f <- call (GFp_BN_bin2bn in_) (fail_with ERR_R_INTERNAL_ERROR) ;;
  when (0 <=? GFp_BN_ucmp f n)
       (fail_with RSA_R_DATA_TOO_LARGE_FOR_MODULUS) ;;
  result <- call (GFp_BN_mod_exp_mont_vartime f e n None)
                 (fail_with ERR_R_INTERNAL_ERROR) ;;
  ok <- bn2bin_padded_to_buffer result ;;
  when (negb ok) (fail_with ERR_R_INTERNAL_ERROR) ;;
  ret tt.

Definition GFp_rsa_public_decrypt
    (public_key_n public_key_e in_ : list byte) (min_bits max_bits : Z)
    : world -> outcome * world :=
  at_err_label 1
    (GFp_rsa_public_decrypt_body public_key_n public_key_e in_
       min_bits max_bits).

(** [GFp_BN_BLINDING_convert] on the blinding context and the randomness
    source of the state. *)
Definition blinding_convert (base : BIGNUM) (rsa : RSA) : M (option BIGNUM) :=
  fun w =>
    let '(r, bl, rg) := GFp_BN_BLINDING_convert base (blinding w) rsa (rng w) in
    (Next r,
     {| buffer := buffer w; blinding := bl; rng := rg;
        err_queue := err_queue w |}).

(** The CRT exponentiation, lines 246-271: from the blinded base to
    [mp] and [mq]. *)
Definition crt_exponentiate (rsa : RSA) (base : BIGNUM) : M (BIGNUM * BIGNUM) :=
  let p := N (mont_p rsa) in
  c_assert (GFp_BN_cmp (N (mont_q rsa)) p <? 0) ;;
  (* mp := base^dmp1 mod p *)
  tmp <- call (GFp_BN_reduce_mont base (mont_p rsa))
              (fail_with ERR_R_INTERNAL_ERROR) ;;
  mp <- call (GFp_BN_mod_exp_mont_consttime tmp (dmp1 rsa) (mont_p rsa))
             (fail_with ERR_R_INTERNAL_ERROR) ;;
  (* mq := base^dmq1 mod q *)
  tmp <- call (GFp_BN_reduce_mont base (mont_qq rsa))
              (fail_with ERR_R_INTERNAL_ERROR) ;;
  tmp <- call (GFp_BN_reduce_mont tmp (mont_q rsa))
              (fail_with ERR_R_INTERNAL_ERROR) ;;
  mq <- call (GFp_BN_mod_exp_mont_consttime tmp (dmq1 rsa) (mont_q rsa))
             (fail_with ERR_R_INTERNAL_ERROR) ;;
  ret (mp, mq).

(** Garner's recombination, lines 273-291: from [mp] and [mq] to [r]. *)
Definition garner (rsa : RSA) (mp mq : BIGNUM) : M BIGNUM :=
  let p := N (mont_p rsa) in
  tmp <- call (GFp_BN_mod_sub_quick mp mq p)
              (fail_with ERR_R_INTERNAL_ERROR) ;;
  tmp <- call (GFp_BN_mod_mul_mont tmp (iqmp_mont rsa) (mont_p rsa))
              (fail_with ERR_R_INTERNAL_ERROR) ;;
  tmp <- call (GFp_BN_mod_mul_mont tmp (qmn_mont rsa) (mont_n rsa))
              (fail_with ERR_R_INTERNAL_ERROR) ;;
  r <- call (GFp_BN_add tmp mq) (fail_with ERR_R_INTERNAL_ERROR) ;;
  ret r.

(** The comparison of the fault check, lines 310-311. *)
Definition vrfy_mismatch (vrfy base : BIGNUM) : bool :=
  negb (Nat.eqb (top vrfy) (top base))
  || negb (GFp_memcmp (d vrfy) (d base) (Z.of_nat (top vrfy) * BN_BYTES) =? 0).

(** [GFp_rsa_private_transform], lines 219-332, in two parts.  The first
    part, lines 231-291, parses and range-checks the input, blinds it and
    computes [r]; it yields the blinded [base] and [r].  [inout] is the
    buffer of the state, [len] its length. *)
Definition blind_and_recombine (rsa : RSA) : M (BIGNUM * BIGNUM) :=
  inout <- (fun w => (Next (buffer w), w)) ;;
  base <- call (GFp_BN_bin2bn inout) goto_err ;;
  when (0 <=? GFp_BN_ucmp base (N (mont_n rsa)))
       (fail_with RSA_R_DATA_TOO_LARGE_FOR_MODULUS) ;;
  converted <- blinding_convert base rsa ;;
  base <- call converted (fail_with ERR_R_INTERNAL_ERROR) ;;
  m <- crt_exponentiate rsa base ;;
  r <- garner rsa (fst m) (snd m) ;;
  ret (base, r).

(** The second part, lines 293-322: the fault check, the unblinding and
    the write of the result. *)
Definition verify_and_release (rsa : RSA) (base r : BIGNUM) : M unit :=
  vrfy <- call (GFp_BN_mod_exp_mont_vartime r (e rsa) (N (mont_n rsa))
                  (Some (mont_n rsa)))
               (fail_with ERR_R_INTERNAL_ERROR) ;;
  when (vrfy_mismatch vrfy base) (fail_with ERR_R_INTERNAL_ERROR) ;;
  bl <- (fun w => (Next (blinding w), w)) ;;
  r <- call (GFp_BN_BLINDING_invert r bl (mont_n rsa))
            (fail_with ERR_R_INTERNAL_ERROR) ;;
  ok <- bn2bin_padded_to_buffer r ;;
  when (negb ok) (fail_with ERR_R_INTERNAL_ERROR) ;;
  ret tt.

Definition GFp_rsa_private_transform_body (rsa : RSA) : M unit :=
  br <- blind_and_recombine rsa ;;
  verify_and_release rsa (fst br) (snd br).

Definition GFp_rsa_private_transform (rsa : RSA) : world -> outcome * world :=
  at_err_label 1 (GFp_rsa_private_transform_body rsa).

End Source.

(** ** The reference engine

    The big-integer engine, the blinding context and [GFp_memcmp] are
    outside the file.  The definitions of this module give each operation
    the meaning the specification gives it (its sections 4.3 and 6), on the
    value [bn_val] of its arguments; every result is in canonical form
    ([bn_of_Z]), so that two results are equal word for word exactly when
    their values are equal.  The engine has no resource failures. *)
Module Ref.

(** Modelled from the spec: bit-length query of the absent engine. *)
Definition num_bits (b : BIGNUM) : Z :=
  let v := Z.abs (bn_val b) in
  if v =? 0 then 0 else Z.log2 v + 1.

(** Modelled from the spec: byte-length query, [ceil(bitlen/8)]. *)
Definition num_bytes (b : BIGNUM) : Z := (num_bits b + 7) / 8.

(** Modelled from the spec: parity of the absent engine's integer. *)
Definition is_odd (b : BIGNUM) : bool := Z.odd (bn_val b).

Definition sign_of (c : comparison) : Z :=
  match c with
  | Lt => -1
  | Eq => 0
  | Gt => 1
  end.

(** Modelled from the spec: comparison of magnitudes (unsigned). *)
Definition ucmp (a b : BIGNUM) : Z :=
  sign_of (Z.abs (bn_val a) ?= Z.abs (bn_val b)).

(** Modelled from the spec: signed comparison. *)
Definition cmp (a b : BIGNUM) : Z := sign_of (bn_val a ?= bn_val b).

(** Modelled from the spec: construction from a big-endian byte string. *)
Definition bin2bn (bs : list byte) : option BIGNUM :=
  Some (bn_of_Z (be_value bs)).

(** Modelled from the spec: conversion to a big-endian byte string of the
    exact length of the buffer, left-zero-padded; it fails, and writes
    nothing, when the value does not fit. *)
Definition bn2bin_padded (buf : list byte) (b : BIGNUM) : bool * list byte :=
  let v := Z.abs (bn_val b) in
  if v <? 256 ^ Z.of_nat (length buf)
  then (true, be_bytes (length buf) v)
  else (false, buf).

(** Modelled from the spec: variable-time modular exponentiation,
    [a^p mod m]. *)
Definition mod_exp_mont_vartime
    (a p m : BIGNUM) (mont : option BN_MONT_CTX) : option BIGNUM :=
  Some (bn_of_Z (Zpow_mod (bn_val a) (bn_val p) (bn_val m))).

(** Modelled from the spec: constant-time modular exponentiation under a
    Montgomery context, [a^p mod N]. *)
Definition mod_exp_mont_consttime
    (a p : BIGNUM) (mont : BN_MONT_CTX) : option BIGNUM :=
  Some (bn_of_Z (Zpow_mod (bn_val a) (bn_val p) (bn_val (N mont)))).

(** Modelled from the spec: a single reduction step modulo the modulus [m]
    of the context.  The spec gives its range: the step is valid for an
    input below [m^2] ("a single mod-p step because p < n < p^2"; "a direct
    single-step reduction mod q is not generally valid from the unreduced
    base").  Outside that range this engine reports failure. *)
Definition reduce_mont (a : BIGNUM) (mont : BN_MONT_CTX) : option BIGNUM :=
  let m := bn_val (N mont) in
  if (0 <=? bn_val a) && (bn_val a <? m * m)
  then Some (bn_of_Z (bn_val a mod m))
  else None.

(** Modelled from the spec: subtraction modulo [m] in its quick variant: a
    single conditional addition of [m], no full reduction. *)
Definition mod_sub_quick (a b m : BIGNUM) : option BIGNUM :=
  let r := bn_val a - bn_val b in
  Some (bn_of_Z (if r <? 0 then r + bn_val m else r)).

(** Modelled from the spec: the Montgomery radix of a context, a power of
    two with one word per word of the modulus. *)
Definition mont_R (mont : BN_MONT_CTX) : Z :=
  2 ^ (BN_BITS2 * Z.of_nat (top (N mont))).

(** Modelled from the spec: the Montgomery form of [x], [x * R mod N]. *)
Definition to_mont (x : Z) (mont : BN_MONT_CTX) : Z :=
  (x * mont_R mont) mod bn_val (N mont).

(** Modelled from the spec: Montgomery multiplication,
    [a * b * R^-1 mod N]: the factor [R] of one encoded operand cancels. *)
Definition mod_mul_mont (a b : BIGNUM) (mont : BN_MONT_CTX) : option BIGNUM :=
  let m := bn_val (N mont) in
  Some (bn_of_Z ((bn_val a * bn_val b * Z.invmod (mont_R mont) m) mod m)).

(** Modelled from the spec: addition. *)
Definition add (a b : BIGNUM) : option BIGNUM :=
  Some (bn_of_Z (bn_val a + bn_val b)).

(** Modelled from the spec: the next value of the randomness source that
    is invertible modulo [n]; none when the source is used up. *)
Fixpoint draw_unit (n : Z) (rg : RAND) : option (Z * RAND) :=
  match rg with
  | [] => None
  | x :: rest =>
      if Z.gcd (x mod n) n =? 1 then Some (x mod n, rest)
      else draw_unit n rest
  end.

(** Modelled from the spec: [convert] takes a fresh random factor [x],
    keeps [x^e] and the inverse of [x] in the context and multiplies the
    base by [x^e]; it fails when the randomness source fails. *)
Definition BLINDING_convert
    (base : BIGNUM) (bl : BN_BLINDING) (rsa : RSA) (rg : RAND)
    : option BIGNUM * BN_BLINDING * RAND :=
  let n := bn_val (N (mont_n rsa)) in
  match draw_unit n rg with
  | None => (None, bl, [])
  | Some (x, rest) =>
      let a := Zpow_mod x (bn_val (e rsa)) n in
      (Some (bn_of_Z ((bn_val base * a) mod n)),
       {| A := bn_of_Z a; Ai := bn_of_Z (Z.invmod x n) |},
       rest)
  end.

(** Modelled from the spec: [invert] multiplies by the inverse the context
    holds. *)
Definition BLINDING_invert
    (r : BIGNUM) (bl : BN_BLINDING) (mont : BN_MONT_CTX) : option BIGNUM :=
  let m := bn_val (N mont) in
  Some (bn_of_Z ((bn_val r * bn_val (Ai bl)) mod m)).

(** Modelled from the spec: [GFp_memcmp] of the first [len] bytes of two
    word arrays: zero exactly when the [len / BN_BYTES] words agree. *)
Definition memcmp (a b : list Z) (len : Z) : Z :=
  let k := Z.to_nat (len / BN_BYTES) in
  if list_eq_dec Z.eq_dec (firstn k a) (firstn k b) then 0 else 1.

#[global] Instance engine : BN_ENGINE := {|
  GFp_BN_num_bits := num_bits;
  GFp_BN_num_bytes := num_bytes;
  GFp_BN_is_odd := is_odd;
  GFp_BN_ucmp := ucmp;
  GFp_BN_cmp := cmp;
  GFp_BN_bin2bn := bin2bn;
  GFp_BN_bn2bin_padded := bn2bin_padded;
  GFp_BN_mod_exp_mont_vartime := mod_exp_mont_vartime;
  GFp_BN_mod_exp_mont_consttime := mod_exp_mont_consttime;
  GFp_BN_reduce_mont := reduce_mont;
  GFp_BN_mod_sub_quick := mod_sub_quick;
  GFp_BN_mod_mul_mont := mod_mul_mont;
  GFp_BN_add := add;
  GFp_BN_BLINDING_convert := BLINDING_convert;
  GFp_BN_BLINDING_invert := BLINDING_invert;
  GFp_memcmp := memcmp
|}.

(** A private key object built for the primes [p] and [q]: the contexts
    and the two Montgomery-form constants. *)
Definition make_key (p q ev dp dq : Z) : RSA :=
  let mn := {| N := bn_of_Z (p * q) |} in
  let mp := {| N := bn_of_Z p |} in
  {| e := bn_of_Z ev;
     dmp1 := bn_of_Z dp;
     dmq1 := bn_of_Z dq;
     mont_n := mn;
     mont_p := mp;
     mont_q := {| N := bn_of_Z q |};
     mont_qq := {| N := bn_of_Z (q * q) |};
     qmn_mont := bn_of_Z (to_mont q mn);
     iqmp_mont := bn_of_Z (to_mont (Z.invmod q p) mp) |}.

End Ref.

(** ** States after a step *)

(** The state [w] with one more reason on its error queue. *)
Definition with_error (w : world) (r : err_reason) : world :=
  {| buffer := buffer w; blinding := blinding w; rng := rng w;
     err_queue := err_queue w ++ [r] |}.

(** The state after [GFp_BN_bn2bin_padded] has been called on the caller's
    buffer with [b]. *)
Definition written {E : BN_ENGINE} (w : world) (b : BIGNUM) : world :=
  {| buffer := snd (GFp_BN_bn2bin_padded (buffer w) b);
     blinding := blinding w; rng := rng w; err_queue := err_queue w |}.

(** ** Framing

    [respects R m]: the statement [m] takes a state to one related to it
    by [R], whichever way [m] ends. *)
Definition respects (R : world -> world -> Prop) {X} (m : M X) : Prop :=
  forall w f w', m w = (f, w') -> R w w'.

(** The state [b] is the state [a] with more reasons on its queue, none of
    them of the kind BufferSizeMismatch. *)
Definition no_size_error (r : err_reason) : Prop :=
  error_kind r <> BufferSizeMismatch.

Definition queue_grows (a b : world) : Prop :=
  exists l, err_queue b = err_queue a ++ l /\ Forall no_size_error l.

(** ** What the specification says of a key *)

(** The checks of the Key Validator in the words of the specification
    (section 4.1): each check with the error kind of its failure, in
    order. *)
Definition validator_checks (n_bits e_bits : Z) (e_odd : bool)
    (min_bits max_bits : Z) : list (bool * ErrorKind) :=
  [ (min_bits <=? n_bits, KeySizeTooSmall);
    (n_bits <=? Z.min max_bits 16384, ModulusTooLarge);
    (2 <=? e_bits, BadExponent);
    (e_bits <=? 33, BadExponent);
    (e_odd, BadExponent);
    (33 <? n_bits, KeySizeTooSmall) ].

Fixpoint first_violated (checks : list (bool * ErrorKind)) : option ErrorKind :=
  match checks with
  | [] => None
  | (true, _) :: rest => first_violated rest
  | (false, k) :: _ => Some k
  end.

(** The key object [rsa] holds the CRT material of the primes [p] and [q]:
    the four contexts have the moduli [p*q], [p], [q] and [q^2], and the
    two constants are [q^-1 mod p] and [q] in Montgomery form. *)
Record crt_key (rsa : RSA) (p q : Z) : Prop := {
  ck_prime_p : Z.prime p;
  ck_prime_q : Z.prime q;
  ck_lt : q < p;
  ck_n : bn_val (N (mont_n rsa)) = p * q;
  ck_p : bn_val (N (mont_p rsa)) = p;
  ck_q : bn_val (N (mont_q rsa)) = q;
  ck_qq : bn_val (N (mont_qq rsa)) = q * q;
  ck_iqmp : bn_val (iqmp_mont rsa) = Ref.to_mont (Z.invmod q p) (mont_p rsa);
  ck_qmn : bn_val (qmn_mont rsa) = Ref.to_mont q (mont_n rsa)
}.

(** The CRT exponents of the key are those of the private exponent [dd]. *)
Record crt_exponents (rsa : RSA) (p q dd : Z) : Prop := {
  ce_d : 0 <= dd;
  ce_dmp1 : bn_val (dmp1 rsa) = dd mod (p - 1);
  ce_dmq1 : bn_val (dmq1 rsa) = dd mod (q - 1)
}.

(** A validly constructed key: consistent CRT material, odd primes (a
    Montgomery context has an odd modulus) of comparable size ([p < q^2],
    which is [n < q^3]), and a private exponent [dd] that inverts the
    public exponent modulo [lcm (p-1) (q-1)]. *)
Record valid_key (rsa : RSA) (p q dd : Z) : Prop := {
  vk_crt : crt_key rsa p q;
  vk_exp : crt_exponents rsa p q dd;
  vk_odd : 2 < q;
  vk_balanced : p < q * q;
  vk_e_pos : 0 < bn_val (e rsa);
  vk_ed : (bn_val (e rsa) * dd) mod Z.lcm (p - 1) (q - 1) = 1
}.

(** Garner's formula in the words of the specification. *)
Definition garner_formula (mp mq q iqmp p : Z) : Z :=
  mq + q * (((mp - mq) * iqmp) mod p).

(** The two inequality chains of the specification (section 4.3). *)
Definition chain_p (p n : Z) : Prop := p < n /\ n < p * p.
Definition chain_q (q n : Z) : Prop := q < q * q /\ q * q < n /\ n < q * q * q.

(** ** Primality by trial division, for the test keys *)

Fixpoint trial (fuel : nat) (k p : Z) : bool :=
  match fuel with
  | O => false
  | S f =>
      if p <? k * k then true
      else if p mod k =? 0 then false
      else trial f (k + 1) p
  end.

Definition is_prime (p : Z) : bool :=
  (1 <? p) && trial (Z.to_nat p) 2 p.

(** ** Test values *)

Definition empty_blinding : BN_BLINDING :=
  {| A := bn_of_Z 0; Ai := bn_of_Z 0 |}.

Definition start (buf : list byte) (rg : RAND) : world :=
  {| buffer := buf; blinding := empty_blinding; rng := rg; err_queue := [] |}.

(** A small key above the 33-bit floor: [p = 131101], [q = 131071],
    [e = 65537], [dd = 495673973]. *)
Definition key17 : RSA := Ref.make_key 131101 131071 65537 115973 98303.

(** The public key of [key17] as byte strings. *)
Definition key17_n : list byte := be_bytes 5 17183539171.
Definition key17_e : list byte := be_bytes 3 65537.

(** Blocks for [key17]: a message, the same message in a buffer one byte
    longer than the modulus, a block above the modulus and an empty output
    buffer. *)
Definition msg17 : list byte := [x01; x23; x45; x67; x89].
Definition msg17_long : list byte := [x00; x01; x23; x45; x67; x89].
Definition block_ff : list byte := [xff; xff; xff; xff; xff].
Definition zeros5 : list byte := [x00; x00; x00; x00; x00].

(** [p = 5], [q = 3], [e = 3], [dd = 3]. *)
Definition key_5_3_ok : RSA := Ref.make_key 5 3 3 3 1.

(** [p = 5], [q = 3] with the exponent [dd = 4], a multiple of [p - 1] and
    of [q - 1]. *)
Definition key_5_3 : RSA := Ref.make_key 5 3 3 0 0.

(** [p = 11], [q = 3], [e = 3], [dd = 7]: primes of different sizes. *)
Definition key_11_3 : RSA := Ref.make_key 11 3 3 7 1.

(** The reference engine with a fault injected into the CRT
    exponentiation: the lowest bit of every result modulo [p = 131101] is
    flipped, so [mp] is corrupted before the recombination. *)
Definition faulty_engine : BN_ENGINE := {|
  GFp_BN_num_bits := Ref.num_bits;
  GFp_BN_num_bytes := Ref.num_bytes;
  GFp_BN_is_odd := Ref.is_odd;
  GFp_BN_ucmp := Ref.ucmp;
  GFp_BN_cmp := Ref.cmp;
  GFp_BN_bin2bn := Ref.bin2bn;
  GFp_BN_bn2bin_padded := Ref.bn2bin_padded;
  GFp_BN_mod_exp_mont_vartime := Ref.mod_exp_mont_vartime;
  GFp_BN_mod_exp_mont_consttime :=
    fun a p mont =>
      if bn_val (N mont) =? 131101
      then option_map (fun r => bn_of_Z (Z.lxor (bn_val r) 1))
             (Ref.mod_exp_mont_consttime a p mont)
      else Ref.mod_exp_mont_consttime a p mont;
  GFp_BN_reduce_mont := Ref.reduce_mont;
  GFp_BN_mod_sub_quick := Ref.mod_sub_quick;
  GFp_BN_mod_mul_mont := Ref.mod_mul_mont;
  GFp_BN_add := Ref.add;
  GFp_BN_BLINDING_convert := Ref.BLINDING_convert;
  GFp_BN_BLINDING_invert := Ref.BLINDING_invert;
  GFp_memcmp := Ref.memcmp
|}.

(** [key17] with its primes exchanged: [q = 131101] is above
    [p = 131071]. *)
Definition key17_swapped : RSA :=
  Ref.make_key 131071 131101 65537 98303 115973.

(** * Proofs *)

(** ** Bytes and big-endian strings *)

Lemma byte_val_range (b : byte) : 0 <= byte_val b < 256.
Proof.
  unfold byte_val. pose proof (Byte.to_N_bounded b). lia.
Qed.

Lemma byte_of_Z_val (b : byte) : byte_of_Z (byte_val b) = b.
Proof.
  unfold byte_of_Z. pose proof (byte_val_range b) as Hr.
  rewrite Z.mod_small by exact Hr.
  unfold byte_val. rewrite N2Z.id, Byte.of_to_N. reflexivity.
Qed.

Lemma byte_val_of_Z (z : Z) : byte_val (byte_of_Z z) = z mod 256.
Proof.
  unfold byte_of_Z, byte_val.
  pose proof (Z.mod_pos_bound z 256 ltac:(lia)) as Hr.
  destruct (Byte.of_N (Z.to_N (z mod 256))) as [b|] eqn:Hb.
  - apply Byte.to_of_N in Hb. rewrite Hb. lia.
  - apply Byte.of_N_None_iff in Hb. lia.
Qed.

Lemma be_bytes_length (k : nat) (z : Z) : length (be_bytes k z) = k.
Proof.
  induction k as [|k IH]; simpl; [reflexivity | now rewrite IH].
Qed.

Lemma be_value_range (bs : list byte) :
  0 <= be_value bs < 256 ^ Z.of_nat (length bs).
Proof.
  induction bs as [|b t IH]; cbn [length be_value].
  - simpl. lia.
  - rewrite Nat2Z.inj_succ, Z.pow_succ_r by lia.
    pose proof (byte_val_range b). nia.
Qed.

Lemma be_value_bytes (k : nat) (z : Z) :
  be_value (be_bytes k z) = z mod 256 ^ Z.of_nat k.
Proof.
  induction k as [|k IH].
  - simpl. now rewrite Z.mod_1_r.
  - cbn [be_bytes be_value].
    rewrite be_bytes_length, IH, byte_val_of_Z.
    rewrite Nat2Z.inj_succ, Z.pow_succ_r by lia.
    assert (Hk : 0 < 256 ^ Z.of_nat k) by (apply Z.pow_pos_nonneg; lia).
    rewrite (Z.mul_comm 256), Z.rem_mul_r by lia. lia.
Qed.

Lemma be_bytes_shift (k : nat) (z a : Z) :
  be_bytes k (a * 256 ^ Z.of_nat k + z) = be_bytes k z.
Proof.
  revert a. induction k as [|k IH]; intros a; [reflexivity|].
  cbn [be_bytes].
  assert (Hk : 0 < 256 ^ Z.of_nat k) by (apply Z.pow_pos_nonneg; lia).
  rewrite Nat2Z.inj_succ, Z.pow_succ_r by lia.
  replace (a * (256 * 256 ^ Z.of_nat k) + z)
    with (a * 256 * 256 ^ Z.of_nat k + z) by ring.
  rewrite IH. f_equal.
  rewrite Z.div_add_l by lia.
  unfold byte_of_Z. rewrite Z.add_comm, Z.mod_add by lia. reflexivity.
Qed.

Lemma be_bytes_value (bs : list byte) :
  be_bytes (length bs) (be_value bs) = bs.
Proof.
  induction bs as [|b t IH]; [reflexivity|].
  cbn [length be_value be_bytes].
  pose proof (be_value_range t) as Ht.
  rewrite be_bytes_shift, IH. f_equal.
  rewrite Z.div_add_l by lia.
  rewrite Z.div_small by lia.
  rewrite Z.add_0_r. apply byte_of_Z_val.
Qed.

Lemma be_bytes_inj_value (k : nat) (z : Z) :
  0 <= z < 256 ^ Z.of_nat k -> be_value (be_bytes k z) = z.
Proof.
  intros Hz. rewrite be_value_bytes. now apply Z.mod_small.
Qed.

(** ** Words and canonical big integers *)

Lemma words_value_of (fuel : nat) (z : Z) :
  0 <= z < 2 ^ Z.of_nat fuel -> words_value (words_of fuel z) = z.
Proof.
  revert z. induction fuel as [|f IH]; intros z Hz.
  - simpl in *. lia.
  - cbn [words_of]. destruct (Z.eqb_spec z 0) as [->|Hnz]; [reflexivity|].
    cbn [words_value].
    assert (H64 : 0 < 2 ^ BN_BITS2) by (unfold BN_BITS2; lia).
    rewrite IH.
    + pose proof (Z.div_mod z (2 ^ BN_BITS2)). lia.
    + rewrite Nat2Z.inj_succ, Z.pow_succ_r in Hz by lia.
      split; [apply Z.div_pos; lia|].
      apply Z.div_lt_upper_bound; [lia|].
      unfold BN_BITS2. change (2 ^ 64) with (2 * 2 ^ 63).
      assert (0 < 2 ^ Z.of_nat f) by (apply Z.pow_pos_nonneg; lia). nia.
Qed.

Lemma bn_val_of_Z (z : Z) : bn_val (bn_of_Z z) = z.
Proof.
  unfold bn_val, bn_of_Z. cbn [d top neg].
  rewrite firstn_all.
  assert (Habs : words_value
            (words_of (S (Z.to_nat (Z.log2 (Z.abs z)))) (Z.abs z)) = Z.abs z).
  { apply words_value_of.
    rewrite Nat2Z.inj_succ, Z2Nat.id by apply Z.log2_nonneg.
    destruct (Z.eq_dec (Z.abs z) 0) as [H0|H0].
    - rewrite H0. simpl. lia.
    - pose proof (Z.log2_spec (Z.abs z)). lia. }
  rewrite Habs. destruct (Z.ltb_spec z 0); lia.
Qed.

Lemma bn_of_Z_inj (x y : Z) : bn_of_Z x = bn_of_Z y -> x = y.
Proof.
  intros H. rewrite <- (bn_val_of_Z x), <- (bn_val_of_Z y). now rewrite H.
Qed.

(** ** Modular arithmetic for RSA *)

Lemma prime_gt_1 (p : Z) : Z.prime p -> 1 < p.
Proof. intros H. pose proof (Z.prime_ge_2 _ H). lia. Qed.

Lemma pow_mod_one (x k m : Z) :
  x mod m = 1 -> (x ^ k) mod m = (1 ^ k) mod m.
Proof.
  intros H. rewrite <- Z.mod_pow_l, H. reflexivity.
Qed.

Lemma pow_mod_zero (x k m : Z) :
  0 < k -> x mod m = 0 -> (x ^ k) mod m = 0.
Proof.
  intros Hk H. rewrite <- Z.mod_pow_l, H.
  rewrite Z.pow_0_l by lia. apply Zmod_0_l.
Qed.

(** Fermat: exponents may be reduced modulo [p - 1], except that a base
    divisible by [p] needs a reduced exponent that is not zero. *)
Lemma pow_exp_mod_prime (p x a : Z) :
  Z.prime p -> 0 <= a ->
  x mod p <> 0 \/ a mod (p - 1) <> 0 ->
  (x ^ (a mod (p - 1))) mod p = (x ^ a) mod p.
Proof.
  intros Hp Ha Hor. pose proof (prime_gt_1 _ Hp) as Hp1.
  pose proof (Z.mod_pos_bound a (p - 1) ltac:(lia)) as Hr.
  assert (Hq : 0 <= a / (p - 1)) by (apply Z.div_pos; lia).
  rewrite (Z.div_mod a (p - 1)) at 2 by lia.
  rewrite Z.pow_add_r by nia.
  rewrite Z.pow_mul_r by lia.
  destruct (Z.eq_dec (x mod p) 0) as [Hx|Hx].
  - destruct Hor as [Hor|Hor]; [contradiction|].
    rewrite pow_mod_zero by (trivial; lia).
    rewrite <- Z.mul_mod_idemp_r by lia.
    rewrite (pow_mod_zero x (a mod (p - 1)) p) by (trivial; lia).
    rewrite Z.mul_0_r. now rewrite Zmod_0_l.
  - rewrite <- Z.mul_mod_idemp_l by lia.
    rewrite (pow_mod_one (x ^ (p - 1)) _ p) by (now apply Z.fermat_nz).
    rewrite Z.pow_1_l by lia.
    rewrite Z.mul_mod_idemp_l by lia. f_equal. lia.
Qed.

(** An exponent that is 1 modulo [p - 1] acts as the identity modulo [p]. *)
Lemma pow_fermat_cycle (p x k : Z) :
  Z.prime p -> 0 <= k -> (x ^ (1 + k * (p - 1))) mod p = x mod p.
Proof.
  intros Hp Hk. pose proof (prime_gt_1 _ Hp) as Hp1.
  rewrite Z.pow_add_r by nia. rewrite Z.pow_1_r.
  rewrite (Z.mul_comm k), Z.pow_mul_r by lia.
  destruct (Z.eq_dec (x mod p) 0) as [Hx|Hx].
  - rewrite <- Z.mul_mod_idemp_l by lia. rewrite Hx. reflexivity.
  - rewrite <- Z.mul_mod_idemp_r by lia.
    rewrite (pow_mod_one (x ^ (p - 1)) _ p) by (now apply Z.fermat_nz).
    rewrite Z.pow_1_l by lia.
    rewrite Z.mul_mod_idemp_r by lia. f_equal. lia.
Qed.

Lemma exponent_cycle (p t m : Z) :
  1 < p -> 0 <= t -> (p - 1 | m) -> t mod m = 1 ->
  exists k, 0 <= k /\ t = 1 + k * (p - 1).
Proof.
  intros Hp Ht [c Hc] Hmod.
  destruct (Z.eq_dec m 0) as [Hm0|Hm0].
  - exists 0. subst m. rewrite Hm0 in Hmod.
    rewrite Z.mod_0_r in Hmod. lia.
  - pose proof (Z.div_mod t m Hm0) as Hdm. rewrite Hmod in Hdm.
    destruct (Z_lt_le_dec m 0) as [Hneg|Hpos].
    + pose proof (Z.mod_neg_bound t m Hneg). lia.
    + exists (c * (t / m)). split.
      * assert (0 <= t / m) by (apply Z.div_pos; lia). nia.
      * rewrite Hdm at 1. rewrite Hc. ring.
Qed.

Lemma rsa_identity_prime (p x ev dd m : Z) :
  Z.prime p -> 0 <= ev * dd -> (p - 1 | m) -> (ev * dd) mod m = 1 ->
  (x ^ (ev * dd)) mod p = x mod p.
Proof.
  intros Hp Hed Hdiv Hmod.
  destruct (exponent_cycle p (ev * dd) m (prime_gt_1 _ Hp) Hed Hdiv Hmod)
    as [k [Hk ->]].
  now apply pow_fermat_cycle.
Qed.

Lemma distinct_primes_coprime (p q : Z) :
  Z.prime p -> Z.prime q -> p <> q -> Z.coprime p q.
Proof.
  intros Hp Hq Hne. apply Z.coprime_prime_l; [exact Hp|].
  intros Hd. apply Hne. now apply Z.divide_prime_prime.
Qed.

(** The Chinese remainder theorem, as the uniqueness of a residue. *)
Lemma mod_crt_eq (p q x y : Z) :
  Z.prime p -> Z.prime q -> p <> q ->
  x mod p = y mod p -> x mod q = y mod q ->
  x mod (p * q) = y mod (p * q).
Proof.
  intros Hp Hq Hne Hxp Hxq.
  pose proof (prime_gt_1 _ Hp). pose proof (prime_gt_1 _ Hq).
  assert (Hdp : (p | x - y)).
  { apply Z.mod_divide; [lia|]. rewrite Zminus_mod, Hxp, Z.sub_diag.
    apply Zmod_0_l. }
  assert (Hdq : (q | x - y)).
  { apply Z.mod_divide; [lia|]. rewrite Zminus_mod, Hxq, Z.sub_diag.
    apply Zmod_0_l. }
  pose proof (Z.lcm_least _ _ _ Hdp Hdq) as Hl.
  assert (Hlcm : Z.lcm p q = Z.abs (p * q)).
  { apply Z.gcd_1_lcm_mul; [lia | lia |].
    now apply distinct_primes_coprime. }
  rewrite Hlcm, Z.abs_eq in Hl by nia.
  destruct Hl as [c Hc].
  replace x with (y + c * (p * q)) by lia.
  apply Z.mod_add. nia.
Qed.

(** RSA: raising to [ev * dd] is the identity modulo [p * q]. *)
Lemma rsa_identity (p q x ev dd : Z) :
  Z.prime p -> Z.prime q -> p <> q -> 0 <= ev * dd ->
  (ev * dd) mod Z.lcm (p - 1) (q - 1) = 1 ->
  (x ^ (ev * dd)) mod (p * q) = x mod (p * q).
Proof.
  intros Hp Hq Hne Hed Hmod.
  apply mod_crt_eq; trivial.
  - apply (rsa_identity_prime p x ev dd _ Hp Hed (Z.divide_lcm_l _ _) Hmod).
  - apply (rsa_identity_prime q x ev dd _ Hq Hed (Z.divide_lcm_r _ _) Hmod).
Qed.

(** Garner's formula yields the residue modulo [p * q] that is [mp] modulo
    [p] and [mq] modulo [q]. *)
Lemma garner_formula_crt (p q mp mq iq y : Z) :
  Z.prime p -> Z.prime q -> q < p ->
  0 <= mq < q -> (iq * q) mod p = 1 ->
  y mod p = mp mod p -> y mod q = mq ->
  garner_formula mp mq q iq p = y mod (p * q).
Proof.
  intros Hp Hq Hlt Hmq Hiq Hyp Hyq.
  pose proof (prime_gt_1 _ Hp). pose proof (prime_gt_1 _ Hq).
  unfold garner_formula.
  set (h := ((mp - mq) * iq) mod p).
  assert (Hh : 0 <= h < p) by (apply Z.mod_pos_bound; lia).
  assert (Hrange : 0 <= mq + q * h < p * q) by nia.
  rewrite <- (Z.mod_small _ _ Hrange).
  apply mod_crt_eq; trivial; [lia| |].
  - rewrite Hyp. unfold h.
    rewrite <- Z.add_mod_idemp_r, Z.mul_mod_idemp_r by lia.
    replace (q * ((mp - mq) * iq)) with ((mp - mq) * (iq * q)) by ring.
    rewrite <- Z.mul_mod_idemp_r, Hiq, Z.mul_1_r by lia.
    rewrite Z.add_mod_idemp_r by lia. f_equal. lia.
  - rewrite Hyq. replace (mq + q * h) with (mq + h * q) by ring.
    rewrite Z.mod_add by lia. apply Z.mod_small. lia.
Qed.

(** ** Montgomery constants *)

Lemma pow2_coprime_odd (k m : Z) :
  0 <= k -> Z.odd m = true -> Z.coprime (2 ^ k) m.
Proof.
  intros Hk Hodd. apply Z.coprime_pow_l; [exact Hk|].
  unfold Z.coprime.
  pose proof (Z.gcd_divide_l 2 m) as Hl. pose proof (Z.gcd_divide_r 2 m) as Hr.
  pose proof (Z.gcd_nonneg 2 m) as Hn.
  assert (Hle : Z.gcd 2 m <= 2) by (apply Z.divide_pos_le; [lia | exact Hl]).
  assert (Hcases : Z.gcd 2 m = 0 \/ Z.gcd 2 m = 1 \/ Z.gcd 2 m = 2) by lia.
  destruct Hcases as [H0|[H1|H2]]; [|exact H1|].
  - rewrite H0 in Hl. destruct Hl as [c Hc]. lia.
  - rewrite H2 in Hr. destruct Hr as [c Hc].
    rewrite Hc, Z.mul_comm, Z.odd_mul in Hodd. simpl in Hodd.
    discriminate.
Qed.

Lemma mont_cancel (a x m k : Z) :
  1 < m -> Z.odd m = true -> 0 <= k ->
  (a * ((x * 2 ^ k) mod m) * Z.invmod (2 ^ k) m) mod m = (a * x) mod m.
Proof.
  intros Hm Hodd Hk.
  pose proof (Z.invmod_coprime (2 ^ k) m ltac:(lia)
                (pow2_coprime_odd k m Hk Hodd)) as Hinv.
  rewrite <- Z.mul_mod_idemp_l by lia.
  rewrite Z.mul_mod_idemp_r by lia.
  rewrite Z.mul_mod_idemp_l by lia.
  replace (a * (x * 2 ^ k) * Z.invmod (2 ^ k) m)
    with (a * x * (Z.invmod (2 ^ k) m * 2 ^ k)) by ring.
  rewrite <- Z.mul_mod_idemp_r, Hinv, Z.mul_1_r by lia. reflexivity.
Qed.

Lemma odd_prime_gt_2 (q : Z) : Z.prime q -> 2 < q -> Z.odd q = true.
Proof.
  intros Hq H2. destruct (Z.odd q) eqn:Ho; [reflexivity|].
  exfalso. destruct Hq as [_ Hq]. apply (Hq 2); [lia|].
  rewrite <- Z.negb_even in Ho. apply negb_false_iff in Ho.
  apply Z.even_spec in Ho. destruct Ho as [c Hc]. exists c. lia.
Qed.

(** ** Trial division *)

Lemma trial_sound (fuel : nat) (k p : Z) :
  0 < k -> trial fuel k p = true ->
  forall j, k <= j -> j * j <= p -> ~ (j | p).
Proof.
  revert k. induction fuel as [|f IH]; intros k Hk Ht j Hkj Hjj;
    cbn [trial] in Ht; [discriminate|].
  destruct (Z.ltb_spec p (k * k)) as [Hlt|Hge]; [nia|].
  destruct (Z.eqb_spec (p mod k) 0) as [H0|Hn0]; [discriminate|].
  destruct (Z.eq_dec j k) as [->|Hne].
  - intros Hd. apply Hn0. now apply Z.mod0_divide.
  - apply (IH (k + 1)); trivial; lia.
Qed.

Lemma is_prime_sound (p : Z) : is_prime p = true -> Z.prime p.
Proof.
  unfold is_prime. intros H. apply andb_prop in H. destruct H as [H1 Ht].
  apply Z.ltb_lt in H1. split; [exact H1|].
  intros n Hn [m Hm].
  assert (Hm1 : 1 < m < p) by nia.
  destruct (Z_le_gt_dec (n * n) p) as [Hs|Hs].
  - apply (trial_sound _ 2 p ltac:(lia) Ht n); [lia | exact Hs|].
    now exists m.
  - apply (trial_sound _ 2 p ltac:(lia) Ht m); [lia | nia |].
    exists n. lia.
Qed.

(** ** Bit lengths *)

Lemma num_bits_nonneg (b : BIGNUM) : 0 <= Ref.num_bits b.
Proof.
  unfold Ref.num_bits. destruct (Z.eqb_spec (Z.abs (bn_val b)) 0); [lia|].
  pose proof (Z.log2_nonneg (Z.abs (bn_val b))). lia.
Qed.

Lemma num_bits_upper (b : BIGNUM) :
  Z.abs (bn_val b) < 2 ^ Ref.num_bits b.
Proof.
  unfold Ref.num_bits. destruct (Z.eqb_spec (Z.abs (bn_val b)) 0) as [H0|H0].
  - rewrite H0. simpl. lia.
  - pose proof (Z.log2_spec (Z.abs (bn_val b))). 
    replace (Z.log2 (Z.abs (bn_val b)) + 1)
      with (Z.succ (Z.log2 (Z.abs (bn_val b)))) by lia. lia.
Qed.

Lemma num_bits_lower (b : BIGNUM) :
  0 < Ref.num_bits b -> 2 ^ (Ref.num_bits b - 1) <= Z.abs (bn_val b).
Proof.
  unfold Ref.num_bits. destruct (Z.eqb_spec (Z.abs (bn_val b)) 0) as [H0|H0];
    [lia|].
  intros _. pose proof (Z.log2_spec (Z.abs (bn_val b))).
  replace (Z.log2 (Z.abs (bn_val b)) + 1 - 1)
    with (Z.log2 (Z.abs (bn_val b))) by lia. lia.
Qed.

(** A longer integer is a larger integer. *)
Lemma num_bits_lt (a b : BIGNUM) :
  Ref.num_bits a < Ref.num_bits b -> Z.abs (bn_val a) < Z.abs (bn_val b).
Proof.
  intros H. pose proof (num_bits_nonneg a) as Ha.
  pose proof (num_bits_upper a) as Hu.
  pose proof (num_bits_lower b ltac:(lia)) as Hl.
  assert (2 ^ Ref.num_bits a <= 2 ^ (Ref.num_bits b - 1))
    by (apply Z.pow_le_mono_r; lia).
  lia.
Qed.

Lemma num_bytes_nonneg (b : BIGNUM) : 0 <= Ref.num_bytes b.
Proof.
  unfold Ref.num_bytes. pose proof (num_bits_nonneg b).
  apply Z.div_pos; lia.
Qed.

(** An integer fits in its byte length. *)
Lemma num_bytes_fits (b : BIGNUM) :
  Z.abs (bn_val b) < 256 ^ Ref.num_bytes b.
Proof.
  pose proof (num_bits_upper b) as Hu. pose proof (num_bits_nonneg b) as Hn.
  pose proof (num_bytes_nonneg b) as Hb.
  change 256 with (2 ^ 8). rewrite <- Z.pow_mul_r by lia.
  assert (Ref.num_bits b <= 8 * Ref.num_bytes b).
  { unfold Ref.num_bytes.
    pose proof (Z.div_mod (Ref.num_bits b + 7) 8 ltac:(lia)).
    pose proof (Z.mod_pos_bound (Ref.num_bits b + 7) 8 ltac:(lia)). lia. }
  assert (2 ^ Ref.num_bits b <= 2 ^ (8 * Ref.num_bytes b))
    by (apply Z.pow_le_mono_r; lia).
  lia.
Qed.

(** ** Facts about the reference engine *)

Lemma ucmp_lt (a b : BIGNUM) :
  Z.abs (bn_val a) < Z.abs (bn_val b) -> (0 <=? Ref.ucmp a b) = false.
Proof.
  intros H. unfold Ref.ucmp. apply Z.compare_lt_iff in H. now rewrite H.
Qed.

Lemma ucmp_ge (a b : BIGNUM) :
  Z.abs (bn_val b) <= Z.abs (bn_val a) -> (0 <=? Ref.ucmp a b) = true.
Proof.
  intros H. unfold Ref.ucmp.
  destruct (Z.compare_spec (Z.abs (bn_val a)) (Z.abs (bn_val b)));
    simpl; try reflexivity; lia.
Qed.

Lemma ucmp_gt (a b : BIGNUM) :
  Z.abs (bn_val b) < Z.abs (bn_val a) -> (0 <? Ref.ucmp a b) = true.
Proof.
  intros H. unfold Ref.ucmp. apply Z.compare_gt_iff in H. now rewrite H.
Qed.

Lemma cmp_lt (a b : BIGNUM) :
  bn_val a < bn_val b -> (Ref.cmp a b <? 0) = true.
Proof.
  intros H. unfold Ref.cmp. apply Z.compare_lt_iff in H. now rewrite H.
Qed.

(** Writing a failed conversion leaves the buffer as it was. *)
Lemma ref_bn2bin_padded_frame (buf : list byte) (b : BIGNUM) :
  fst (Ref.bn2bin_padded buf b) = false ->
  snd (Ref.bn2bin_padded buf b) = buf.
Proof.
  unfold Ref.bn2bin_padded.
  destruct (Z.abs (bn_val b) <? 256 ^ Z.of_nat (length buf));
    simpl; [discriminate | reflexivity].
Qed.

(** Canonical integers are equal word for word when their values are. *)
Lemma ref_vrfy_match (x : Z) :
  @vrfy_mismatch Ref.engine (bn_of_Z x) (bn_of_Z x) = false.
Proof.
  unfold vrfy_mismatch. cbn [GFp_memcmp Ref.engine]. unfold Ref.memcmp.
  rewrite Nat.eqb_refl.
  destruct (list_eq_dec Z.eq_dec _ _) as [_|Hne]; [reflexivity|].
  now contradiction Hne.
Qed.

(** ** The Key Validator *)

(** Unfolds the control-flow combinators of the embedding. *)
Ltac unfold_flow :=
  unfold at_err_label, bind, call, when, fail_with, goto_err, ret,
    c_assert, OPENSSL_PUT_ERROR, with_error in *.

(** When the bit-length shortcut passes, the full comparison holds. *)
Lemma shortcut_implies_gt (n e : BIGNUM) :
  Ref.num_bits e <= kMaxExponentBits -> kMaxExponentBits < Ref.num_bits n ->
  (0 <? Ref.ucmp n e) = true.
Proof.
  intros He Hn. apply ucmp_gt. apply num_bits_lt. lia.
Qed.

(** What the validator does, by cases on the six comparisons. *)
Lemma check_cases (n e : BIGNUM) (min_bits max_bits : Z) (w : world) :
  let nb := Ref.num_bits n in
  let eb := Ref.num_bits e in
  GFp_rsa_check_modulus_and_exponent n e min_bits max_bits w =
    if nb <? min_bits then (Next 0, with_error w RSA_R_KEY_SIZE_TOO_SMALL)
    else if (16 * 1024 <? nb) || (max_bits <? nb)
    then (Next 0, with_error w RSA_R_MODULUS_TOO_LARGE)
    else if eb <? 2 then (Next 0, with_error w RSA_R_BAD_E_VALUE)
    else if 33 <? eb then (Next 0, with_error w RSA_R_BAD_E_VALUE)
    else if negb (Z.odd (bn_val e)) then (Next 0, with_error w RSA_R_BAD_E_VALUE)
    else if nb <=? 33 then (Next 0, with_error w RSA_R_KEY_SIZE_TOO_SMALL)
    else (Next 1, w).
Proof.
  intros nb eb. unfold GFp_rsa_check_modulus_and_exponent.
  cbn [GFp_BN_num_bits GFp_BN_is_odd GFp_BN_ucmp Ref.engine].
  fold nb eb. unfold Ref.is_odd, kMaxExponentBits.
  destruct (nb <? min_bits); [reflexivity|].
  destruct ((16 * 1024 <? nb) || (max_bits <? nb)); [reflexivity|].
  destruct (eb <? 2); [reflexivity|].
  destruct (Z.ltb_spec 33 eb) as [He|He]; [reflexivity|].
  destruct (negb (Z.odd (bn_val e))); [reflexivity|].
  destruct (Z.leb_spec nb 33) as [Hn|Hn]; [reflexivity|].
  unfold_flow.
  rewrite (shortcut_implies_gt n e) by (unfold kMaxExponentBits; lia).
  reflexivity.
Qed.

(** C4: the validator succeeds exactly when the six conditions hold, and
    on failure it puts on the error queue the error of the first violated
    check, in the order KeySizeTooSmall, ModulusTooLarge, BadExponent
    (three checks), KeySizeTooSmall. *)
Theorem check_modulus_and_exponent_verdict
    (n e : BIGNUM) (min_bits max_bits : Z) (w : world) :
  let nb := Ref.num_bits n in
  let eb := Ref.num_bits e in
  (GFp_rsa_check_modulus_and_exponent n e min_bits max_bits w = (Next 1, w)
   <-> min_bits <= nb /\ nb <= Z.min max_bits 16384 /\
       2 <= eb <= 33 /\ Z.odd (bn_val e) = true /\ 33 < nb)
  /\ match first_violated
             (validator_checks nb eb (Z.odd (bn_val e)) min_bits max_bits) with
     | None =>
         GFp_rsa_check_modulus_and_exponent n e min_bits max_bits w
         = (Next 1, w)
     | Some k =>
         exists r, error_kind r = k /\
           GFp_rsa_check_modulus_and_exponent n e min_bits max_bits w
           = (Next 0, with_error w r)
     end.
Proof.
  intros nb eb. rewrite check_cases. fold nb eb.
  unfold validator_checks, first_violated.
  destruct (Z.ltb_spec nb min_bits) as [H1|H1];
    [ rewrite (proj2 (Z.leb_gt _ _) H1) | rewrite (proj2 (Z.leb_le _ _) H1) ].
  { split; [split; [discriminate | lia]|].
    exists RSA_R_KEY_SIZE_TOO_SMALL. split; reflexivity. }
  destruct (Z.leb_spec nb (Z.min max_bits 16384)) as [H2|H2].
  2:{ replace ((16 * 1024 <? nb) || (max_bits <? nb)) with true
        by (symmetry; apply orb_true_iff;
            destruct (Z.ltb_spec (16 * 1024) nb);
            destruct (Z.ltb_spec max_bits nb); auto; lia).
      split; [split; [discriminate | lia]|].
      exists RSA_R_MODULUS_TOO_LARGE. split; reflexivity. }
  replace ((16 * 1024 <? nb) || (max_bits <? nb)) with false
    by (symmetry; apply orb_false_iff;
        split; apply Z.ltb_ge; lia).
  destruct (Z.ltb_spec eb 2) as [H3|H3];
    [ rewrite (proj2 (Z.leb_gt _ _) H3) | rewrite (proj2 (Z.leb_le _ _) H3) ].
  { split; [split; [discriminate | lia]|].
    exists RSA_R_BAD_E_VALUE. split; reflexivity. }
  destruct (Z.ltb_spec 33 eb) as [H4|H4];
    [ rewrite (proj2 (Z.leb_gt _ _) H4) | rewrite (proj2 (Z.leb_le _ _) H4) ].
  { split; [split; [discriminate | lia]|].
    exists RSA_R_BAD_E_VALUE. split; reflexivity. }
  destruct (Z.odd (bn_val e)) eqn:H5; cbn [negb].
  2:{ split; [split; [discriminate | intros H; decompose [and] H; discriminate]|].
      exists RSA_R_BAD_E_VALUE. split; reflexivity. }
  destruct (Z.leb_spec nb 33) as [H6|H6];
    [ rewrite (proj2 (Z.ltb_ge _ _) H6) | rewrite (proj2 (Z.ltb_lt _ _) H6) ].
  { split; [split; [discriminate | lia]|].
    exists RSA_R_KEY_SIZE_TOO_SMALL. split; reflexivity. }
  split; [split; [intros _; repeat split; lia | reflexivity] | reflexivity].
Qed.

(** C9: the validator never stops at its assertion, and whenever it
    returns success the modulus is larger than the exponent. *)
Theorem check_success_implies_n_gt_e
    (n e : BIGNUM) (min_bits max_bits : Z) (w : world) :
  fst (GFp_rsa_check_modulus_and_exponent n e min_bits max_bits w)
    <> Assert_failed
  /\ (fst (GFp_rsa_check_modulus_and_exponent n e min_bits max_bits w) = Next 1
      -> Z.abs (bn_val e) < Z.abs (bn_val n)
         /\ 0 < Ref.ucmp n e).
Proof.
  rewrite check_cases.
  destruct (Ref.num_bits n <? min_bits);
    [split; [discriminate | discriminate]|].
  destruct ((16 * 1024 <? Ref.num_bits n) || (max_bits <? Ref.num_bits n));
    [split; [discriminate | discriminate]|].
  destruct (Ref.num_bits e <? 2); [split; [discriminate | discriminate]|].
  destruct (Z.ltb_spec 33 (Ref.num_bits e)) as [He|He];
    [split; [discriminate | discriminate]|].
  destruct (negb (Z.odd (bn_val e))); [split; [discriminate | discriminate]|].
  destruct (Z.leb_spec (Ref.num_bits n) 33) as [Hn|Hn];
    [split; [discriminate | discriminate]|].
  split; [discriminate|]. intros _.
  split; [apply num_bits_lt; lia|].
  apply Z.ltb_lt. apply shortcut_implies_gt; unfold kMaxExponentBits; lia.
Qed.

(** C9 at the public key of [key17]. *)
Lemma check_success_implies_n_gt_e_witness :
  fst (GFp_rsa_check_modulus_and_exponent
         (bn_of_Z 17183539171) (bn_of_Z 65537) 34 8192 (start [] [])) = Next 1
  /\ Z.abs (bn_val (bn_of_Z 65537)) < Z.abs (bn_val (bn_of_Z 17183539171)).
Proof.
  split; [vm_compute; reflexivity|].
  apply (check_success_implies_n_gt_e
           (bn_of_Z 17183539171) (bn_of_Z 65537) 34 8192 (start [] [])).
  vm_compute. reflexivity.
Defined.

(** ** What a call can change, for every engine *)

Section Respects.

Context {E : BN_ENGINE}.

(** [R] relates the state before a statement to the state after it;
    [allowed] are the reasons the statement may put on the queue. *)
Variable R : world -> world -> Prop.
Variable allowed : err_reason -> Prop.
Hypothesis R_refl : forall w, R w w.
Hypothesis R_trans : forall a b c, R a b -> R b c -> R a c.
Hypothesis R_put : forall w r, allowed r -> R w (with_error w r).
Hypothesis R_blinding :
  forall w bl rg,
    R w {| buffer := buffer w; blinding := bl; rng := rg;
           err_queue := err_queue w |}.

Lemma respects_ret {X} (x : X) : respects R (ret x).
Proof. intros w f w' H. inversion H. apply R_refl. Qed.

Lemma respects_pure {X} (g : world -> X) :
  respects R (fun w => (Next (g w), w)).
Proof. intros w f w' H. inversion H. apply R_refl. Qed.

Lemma respects_goto_err {X} : respects R (@goto_err X).
Proof. intros w f w' H. inversion H. apply R_refl. Qed.

Lemma respects_assert (b : bool) : respects R (c_assert b).
Proof.
  intros w f w' H. unfold c_assert in H.
  destruct b; inversion H; apply R_refl.
Qed.

Lemma respects_bind {X Y} (m : M X) (k : X -> M Y) :
  respects R m -> (forall x, respects R (k x)) -> respects R (bind m k).
Proof.
  intros Hm Hk w f w' H. unfold bind in H.
  destruct (m w) as [[x| |] w1] eqn:Hmw.
  - apply (R_trans _ w1); [now apply (Hm w (Next x)) | now apply (Hk x w1 f)].
  - inversion H; subst. now apply (Hm w Goto_err).
  - inversion H; subst. now apply (Hm w Assert_failed).
Qed.

Lemma respects_put (r : err_reason) :
  allowed r -> respects R (OPENSSL_PUT_ERROR r).
Proof. intros Hr w f w' H. inversion H. now apply R_put. Qed.

Lemma respects_fail_with {X} (r : err_reason) :
  allowed r -> respects R (@fail_with X r).
Proof.
  intros Hr. apply respects_bind; [now apply respects_put|].
  intros _. apply respects_goto_err.
Qed.

Lemma respects_call {X} (o : option X) (h : M X) :
  respects R h -> respects R (call o h).
Proof. intros Hh. destruct o; [apply respects_ret | exact Hh]. Qed.

Lemma respects_when (c : bool) (s : M unit) :
  respects R s -> respects R (when c s).
Proof. intros Hs. destruct c; [exact Hs | apply respects_ret]. Qed.

Lemma respects_blinding_convert (base : BIGNUM) (rsa : RSA) :
  respects R (blinding_convert base rsa).
Proof.
  intros w f w' H. unfold blinding_convert in H.
  destruct (GFp_BN_BLINDING_convert base (blinding w) rsa (rng w))
    as [[r bl] rg].
  inversion H. apply R_blinding.
Qed.

Ltac respects_steps :=
  repeat first
    [ apply respects_fail_with; assumption
    | apply respects_goto_err
    | apply respects_ret
    | apply respects_pure
    | apply respects_assert
    | apply respects_call
    | apply respects_when
    | apply respects_blinding_convert
    | apply respects_bind; [|intros ?] ].

Hypothesis allowed_internal : allowed ERR_R_INTERNAL_ERROR.
Hypothesis allowed_too_large : allowed RSA_R_DATA_TOO_LARGE_FOR_MODULUS.

Lemma respects_crt_exponentiate (rsa : RSA) (base : BIGNUM) :
  respects R (crt_exponentiate rsa base).
Proof.
  unfold crt_exponentiate. cbv zeta.
  respects_steps.
Qed.

Lemma respects_garner (rsa : RSA) (mp mq : BIGNUM) :
  respects R (garner rsa mp mq).
Proof.
  unfold garner. cbv zeta.
  respects_steps.
Qed.

Lemma respects_blind_and_recombine (rsa : RSA) :
  respects R (blind_and_recombine rsa).
Proof.
  unfold blind_and_recombine.
  respects_steps;
    first [apply respects_crt_exponentiate | apply respects_garner].
Qed.

End Respects.

(** The first part of the private transform does not write the caller's
    buffer. *)
Lemma blind_and_recombine_buffer {E : BN_ENGINE} (rsa : RSA)
    (w : world) (f : flow (BIGNUM * BIGNUM)) (w' : world) :
  blind_and_recombine rsa w = (f, w') -> buffer w' = buffer w.
Proof.
  intros H.
  apply (respects_blind_and_recombine
           (fun a b => buffer b = buffer a) (fun _ => True)) in H;
    auto; congruence.
Qed.

(** ** The two transforms by cases, for every engine *)

Section Generic.

Context {E : BN_ENGINE}.

Lemma private_transform_cases (rsa : RSA) (w : world) :
  GFp_rsa_private_transform rsa w =
    match blind_and_recombine rsa w with
    | (Next br, w1) =>
        at_err_label 1 (verify_and_release rsa (fst br) (snd br)) w1
    | (Goto_err, w1) => (Returned 0, w1)
    | (Assert_failed, w1) => (Aborted, w1)
    end.
Proof.
  unfold GFp_rsa_private_transform, GFp_rsa_private_transform_body,
    at_err_label, bind.
  destruct (blind_and_recombine rsa w) as [[br| |] w1]; reflexivity.
Qed.

Lemma verify_and_release_cases (rsa : RSA) (base r : BIGNUM) (w : world) :
  at_err_label 1 (verify_and_release rsa base r) w =
    match GFp_BN_mod_exp_mont_vartime r (e rsa) (N (mont_n rsa))
            (Some (mont_n rsa)) with
    | None => (Returned 0, with_error w ERR_R_INTERNAL_ERROR)
    | Some vrfy =>
        if vrfy_mismatch vrfy base
        then (Returned 0, with_error w ERR_R_INTERNAL_ERROR)
        else
          match GFp_BN_BLINDING_invert r (blinding w) (mont_n rsa) with
          | None => (Returned 0, with_error w ERR_R_INTERNAL_ERROR)
          | Some r' =>
              if fst (GFp_BN_bn2bin_padded (buffer w) r')
              then (Returned 1, written w r')
              else (Returned 0, with_error (written w r') ERR_R_INTERNAL_ERROR)
          end
    end.
Proof.
  unfold verify_and_release, bn2bin_padded_to_buffer, written.
  unfold_flow.
  destruct (GFp_BN_mod_exp_mont_vartime _ _ _ _) as [vrfy|]; [|reflexivity].
  destruct (vrfy_mismatch vrfy base); [reflexivity|].
  destruct (GFp_BN_BLINDING_invert _ _ _) as [r'|]; [|reflexivity].
  destruct (GFp_BN_bn2bin_padded (buffer w) r') as [ok buf].
  destruct ok; reflexivity.
Qed.

Lemma check_buffer (n e : BIGNUM) (min_bits max_bits : Z)
    (w : world) (f : flow Z) (w' : world) :
  GFp_rsa_check_modulus_and_exponent n e min_bits max_bits w = (f, w') ->
  buffer w' = buffer w.
Proof.
  unfold GFp_rsa_check_modulus_and_exponent. unfold_flow.
  repeat match goal with
         | |- context [if ?c then _ else _] => destruct c
         end;
    intros H; inversion H; reflexivity.
Qed.

Lemma public_decrypt_cases
    (nb eb in_ : list byte) (min_bits max_bits : Z) (w : world) :
  GFp_rsa_public_decrypt nb eb in_ min_bits max_bits w =
    match GFp_BN_bin2bn nb with
    | None => (Returned 0, with_error w ERR_R_INTERNAL_ERROR)
    | Some n =>
    match GFp_BN_bin2bn eb with
    | None => (Returned 0, with_error w ERR_R_INTERNAL_ERROR)
    | Some e =>
      if negb (Z.of_nat (length (buffer w)) =? GFp_BN_num_bytes n)
      then (Returned 0, with_error w RSA_R_OUTPUT_BUFFER_TOO_SMALL)
      else if negb (Z.of_nat (length in_) =? GFp_BN_num_bytes n)
      then (Returned 0, with_error w RSA_R_DATA_LEN_NOT_EQUAL_TO_MOD_LEN)
      else
        match GFp_rsa_check_modulus_and_exponent n e min_bits max_bits w with
        | (Assert_failed, w1) => (Aborted, w1)
        | (Goto_err, w1) => (Returned 0, w1)
        | (Next ok, w1) =>
          if ok =? 0 then (Returned 0, w1)
          else
            match GFp_BN_bin2bn in_ with
            | None => (Returned 0, with_error w1 ERR_R_INTERNAL_ERROR)
            | Some f =>
              if 0 <=? GFp_BN_ucmp f n
              then (Returned 0,
                    with_error w1 RSA_R_DATA_TOO_LARGE_FOR_MODULUS)
              else
                match GFp_BN_mod_exp_mont_vartime f e n None with
                | None => (Returned 0, with_error w1 ERR_R_INTERNAL_ERROR)
                | Some result =>
                    if fst (GFp_BN_bn2bin_padded (buffer w1) result)
                    then (Returned 1, written w1 result)
                    else (Returned 0,
                          with_error (written w1 result) ERR_R_INTERNAL_ERROR)
                end
            end
        end
    end
    end.
Proof.
  unfold GFp_rsa_public_decrypt, GFp_rsa_public_decrypt_body,
    bn2bin_padded_to_buffer, written.
  unfold_flow.
  destruct (GFp_BN_bin2bn nb) as [n|]; [|reflexivity].
  destruct (GFp_BN_bin2bn eb) as [e|]; [|reflexivity].
  destruct (negb (Z.of_nat (length (buffer w)) =? GFp_BN_num_bytes n));
    [reflexivity|].
  destruct (negb (Z.of_nat (length in_) =? GFp_BN_num_bytes n));
    [reflexivity|].
  destruct (GFp_rsa_check_modulus_and_exponent n e min_bits max_bits w)
    as [[ok| |] w1]; try reflexivity.
  destruct (ok =? 0); [reflexivity|].
  destruct (GFp_BN_bin2bn in_) as [f|]; [|reflexivity].
  destruct (0 <=? GFp_BN_ucmp f n); [reflexivity|].
  destruct (GFp_BN_mod_exp_mont_vartime f e n None) as [result|];
    [|reflexivity].
  destruct (GFp_BN_bn2bin_padded (buffer w1) result) as [ok' buf].
  destruct ok'; reflexivity.
Qed.

Lemma mismatch_true (vrfy base : BIGNUM) :
  top vrfy <> top base
  \/ GFp_memcmp (d vrfy) (d base) (Z.of_nat (top vrfy) * BN_BYTES) <> 0 ->
  vrfy_mismatch vrfy base = true.
Proof.
  unfold vrfy_mismatch. intros [H|H].
  - apply Nat.eqb_neq in H. now rewrite H.
  - apply Z.eqb_neq in H. rewrite H. apply orb_true_r.
Qed.

(** C3: when the recombined [r], raised to [e] modulo [n], differs from the
    blinded input in its length [top] or in one of its words, the call
    returns 0 with [ERR_R_INTERNAL_ERROR] (InternalError) and the [inout]
    buffer is as the caller passed it: nothing derived from [r] is
    written. *)
Theorem fault_check_fails_closed
    (rsa : RSA) (w w1 : world) (base r vrfy : BIGNUM) :
  blind_and_recombine rsa w = (Next (base, r), w1) ->
  GFp_BN_mod_exp_mont_vartime r (e rsa) (N (mont_n rsa)) (Some (mont_n rsa))
    = Some vrfy ->
  top vrfy <> top base
  \/ GFp_memcmp (d vrfy) (d base) (Z.of_nat (top vrfy) * BN_BYTES) <> 0 ->
  GFp_rsa_private_transform rsa w
    = (Returned 0, with_error w1 ERR_R_INTERNAL_ERROR)
  /\ error_kind ERR_R_INTERNAL_ERROR = InternalError
  /\ buffer (snd (GFp_rsa_private_transform rsa w)) = buffer w.
Proof.
  intros Hpre Hexp Hmis.
  assert (Hrun : GFp_rsa_private_transform rsa w
                 = (Returned 0, with_error w1 ERR_R_INTERNAL_ERROR)).
  { rewrite private_transform_cases, Hpre. cbn [fst snd].
    rewrite verify_and_release_cases, Hexp.
    now rewrite (mismatch_true _ _ Hmis). }
  split; [exact Hrun|]. split; [reflexivity|].
  rewrite Hrun. cbn [snd with_error buffer].
  now apply blind_and_recombine_buffer in Hpre.
Qed.

(** C10: given that a failing [GFp_BN_bn2bin_padded] leaves its output
    as it was, every call of either transform that does not return 1
    leaves the caller's buffer unmodified; and whenever the buffer is
    modified at all, it is by the final [GFp_BN_bn2bin_padded], reached
    after every earlier step has succeeded. *)
Theorem failure_leaves_buffer_unmodified
    (Hframe : forall buf b,
        fst (GFp_BN_bn2bin_padded buf b) = false ->
        snd (GFp_BN_bn2bin_padded buf b) = buf) :
  (forall rsa w,
      (fst (GFp_rsa_private_transform rsa w) <> Returned 1 ->
       buffer (snd (GFp_rsa_private_transform rsa w)) = buffer w)
      /\ (buffer (snd (GFp_rsa_private_transform rsa w)) = buffer w
          \/ exists base r w1 vrfy r',
               blind_and_recombine rsa w = (Next (base, r), w1)
               /\ GFp_BN_mod_exp_mont_vartime r (e rsa) (N (mont_n rsa))
                    (Some (mont_n rsa)) = Some vrfy
               /\ vrfy_mismatch vrfy base = false
               /\ GFp_BN_BLINDING_invert r (blinding w1) (mont_n rsa)
                  = Some r'
               /\ buffer (snd (GFp_rsa_private_transform rsa w))
                  = snd (GFp_BN_bn2bin_padded (buffer w) r')))
  /\ (forall nb eb in_ min_bits max_bits w,
      (fst (GFp_rsa_public_decrypt nb eb in_ min_bits max_bits w)
         <> Returned 1 ->
       buffer (snd (GFp_rsa_public_decrypt nb eb in_ min_bits max_bits w))
       = buffer w)
      /\ (buffer (snd (GFp_rsa_public_decrypt nb eb in_ min_bits max_bits w))
          = buffer w
          \/ exists n e f result w1,
               GFp_BN_bin2bn nb = Some n /\ GFp_BN_bin2bn eb = Some e
               /\ GFp_rsa_check_modulus_and_exponent n e min_bits max_bits w
                  = (Next 1, w1)
               /\ GFp_BN_bin2bn in_ = Some f
               /\ GFp_BN_ucmp f n < 0
               /\ GFp_BN_mod_exp_mont_vartime f e n None = Some result
               /\ buffer (snd (GFp_rsa_public_decrypt nb eb in_
                                 min_bits max_bits w))
                  = snd (GFp_BN_bn2bin_padded (buffer w) result))).
Proof.
  split.
  - intros rsa w. rewrite private_transform_cases.
    destruct (blind_and_recombine rsa w) as [[[base r]| |] w1] eqn:Hpre;
      pose proof (blind_and_recombine_buffer _ _ _ _ Hpre) as Hbuf;
      cbn [fst snd]; try (split; [intros _|left]; exact Hbuf).
    rewrite verify_and_release_cases.
    destruct (GFp_BN_mod_exp_mont_vartime _ _ _ _) as [vrfy|] eqn:Hexp;
      [|split; [intros _|left]; exact Hbuf].
    destruct (vrfy_mismatch vrfy base) eqn:Hmis;
      [split; [intros _|left]; exact Hbuf|].
    destruct (GFp_BN_BLINDING_invert _ _ _) as [r'|] eqn:Hinv;
      [|split; [intros _|left]; exact Hbuf].
    destruct (fst (GFp_BN_bn2bin_padded (buffer w1) r')) eqn:Hok;
      cbn [fst snd with_error written buffer].
    + split; [intros Hne; now contradiction Hne|].
      right. exists base, r, w1, vrfy, r'. rewrite <- Hbuf. auto.
    + rewrite (Hframe _ _ Hok). split; [intros _|left]; exact Hbuf.
  - intros nb eb in_ min_bits max_bits w. rewrite public_decrypt_cases.
    destruct (GFp_BN_bin2bn nb) as [n|] eqn:Hn; [|split; [intros _|left]; reflexivity].
    destruct (GFp_BN_bin2bn eb) as [e|] eqn:He; [|split; [intros _|left]; reflexivity].
    destruct (negb (Z.of_nat (length (buffer w)) =? GFp_BN_num_bytes n));
      [split; [intros _|left]; reflexivity|].
    destruct (negb (Z.of_nat (length in_) =? GFp_BN_num_bytes n));
      [split; [intros _|left]; reflexivity|].
    destruct (GFp_rsa_check_modulus_and_exponent n e min_bits max_bits w)
      as [[ok| |] w1] eqn:Hchk;
      pose proof (check_buffer _ _ _ _ _ _ _ Hchk) as Hbuf;
      cbn [fst snd]; try (split; [intros _|left]; exact Hbuf).
    destruct (Z.eqb_spec ok 0) as [Hok0|Hok0];
      [split; [intros _|left]; exact Hbuf|].
    destruct (GFp_BN_bin2bn in_) as [f|] eqn:Hf;
      [|split; [intros _|left]; exact Hbuf].
    destruct (Z.leb_spec 0 (GFp_BN_ucmp f n)) as [Hcmp|Hcmp];
      [split; [intros _|left]; exact Hbuf|].
    destruct (GFp_BN_mod_exp_mont_vartime f e n None) as [result|] eqn:Hexp;
      [|split; [intros _|left]; exact Hbuf].
    destruct (fst (GFp_BN_bn2bin_padded (buffer w1) result)) eqn:Hok;
      cbn [fst snd with_error written buffer].
    + split; [intros Hne; now contradiction Hne|].
      right. exists n, e, f, result, w1. rewrite <- Hbuf.
      assert (Hok1 : ok = 1).
      { revert Hchk. unfold GFp_rsa_check_modulus_and_exponent.
        unfold_flow.
        repeat match goal with
               | |- context [if ?c then _ else _] => destruct c
               end;
          intros H; inversion H; subst; congruence. }
      subst ok. auto 10.
    + rewrite (Hframe _ _ Hok). split; [intros _|left]; exact Hbuf.
Qed.

Lemma queue_grows_refl (w : world) : queue_grows w w.
Proof. exists []. split; [now rewrite app_nil_r | constructor]. Qed.

Lemma queue_grows_trans (a b c : world) :
  queue_grows a b -> queue_grows b c -> queue_grows a c.
Proof.
  intros [l1 [H1 F1]] [l2 [H2 F2]]. exists (l1 ++ l2). split.
  - now rewrite H2, H1, app_assoc.
  - apply Forall_app. now split.
Qed.

Lemma queue_grows_put (w : world) (r : err_reason) :
  no_size_error r -> queue_grows w (with_error w r).
Proof. intros Hr. exists [r]. split; [reflexivity | now constructor]. Qed.

(** The private transform puts no BufferSizeMismatch on the queue. *)
Lemma private_transform_queue (rsa : RSA) (w : world) :
  queue_grows w (snd (GFp_rsa_private_transform rsa w)).
Proof.
  assert (Hint : no_size_error ERR_R_INTERNAL_ERROR) by discriminate.
  assert (Hbig : no_size_error RSA_R_DATA_TOO_LARGE_FOR_MODULUS)
    by discriminate.
  rewrite private_transform_cases.
  destruct (blind_and_recombine rsa w) as [f w1] eqn:Hpre.
  assert (H1 : queue_grows w w1).
  { apply (respects_blind_and_recombine queue_grows no_size_error
             queue_grows_refl queue_grows_trans queue_grows_put) in Hpre;
      trivial.
    intros w0 bl rg. exists []. cbn [err_queue].
    split; [now rewrite app_nil_r | constructor]. }
  destruct f as [br| |]; cbn [snd]; trivial.
  rewrite verify_and_release_cases.
  apply (queue_grows_trans _ w1); [exact H1|].
  assert (Hw : forall b, queue_grows w1 (written w1 b))
    by (intros b; exists []; cbn [written err_queue];
        split; [now rewrite app_nil_r | constructor]).
  destruct (GFp_BN_mod_exp_mont_vartime _ _ _ _) as [vrfy|];
    [|now apply queue_grows_put].
  destruct (vrfy_mismatch vrfy (fst br)); [now apply queue_grows_put|].
  destruct (GFp_BN_BLINDING_invert _ _ _) as [r'|];
    [|now apply queue_grows_put].
  destruct (fst (GFp_BN_bn2bin_padded (buffer w1) r')); [apply Hw|].
  apply (queue_grows_trans _ (written w1 r'));
    [apply Hw | now apply queue_grows_put].
Qed.

(** C7, as the code has it: once [n] and [e] are parsed, the public
    transform rejects an output buffer whose length is not the modulus byte
    length with [RSA_R_OUTPUT_BUFFER_TOO_SMALL], and otherwise an input of
    another length with [RSA_R_DATA_LEN_NOT_EQUAL_TO_MOD_LEN]; both are
    BufferSizeMismatch, and the state is otherwise untouched: no validation,
    no exponentiation, no write.  The private transform has no length
    check: it never reports BufferSizeMismatch. *)
Theorem public_decrypt_size_contract
    (nb eb in_ : list byte) (min_bits max_bits : Z) (w : world)
    (n e : BIGNUM) :
  GFp_BN_bin2bn nb = Some n ->
  GFp_BN_bin2bn eb = Some e ->
  (Z.of_nat (length (buffer w)) <> GFp_BN_num_bytes n ->
   GFp_rsa_public_decrypt nb eb in_ min_bits max_bits w
   = (Returned 0, with_error w RSA_R_OUTPUT_BUFFER_TOO_SMALL))
  /\ (Z.of_nat (length (buffer w)) = GFp_BN_num_bytes n ->
      Z.of_nat (length in_) <> GFp_BN_num_bytes n ->
      GFp_rsa_public_decrypt nb eb in_ min_bits max_bits w
      = (Returned 0, with_error w RSA_R_DATA_LEN_NOT_EQUAL_TO_MOD_LEN))
  /\ error_kind RSA_R_OUTPUT_BUFFER_TOO_SMALL = BufferSizeMismatch
  /\ error_kind RSA_R_DATA_LEN_NOT_EQUAL_TO_MOD_LEN = BufferSizeMismatch
  /\ (forall rsa w0,
        queue_grows w0 (snd (GFp_rsa_private_transform rsa w0))).
Proof.
  intros Hn He. rewrite public_decrypt_cases, Hn, He.
  split; [|split; [|split; [|split]]];
    [| | reflexivity | reflexivity | apply private_transform_queue].
  - intros Hout. apply Z.eqb_neq in Hout. now rewrite Hout.
  - intros Hout Hin. apply Z.eqb_eq in Hout. apply Z.eqb_neq in Hin.
    now rewrite Hout, Hin.
Qed.

End Generic.

(** ** The CRT path on the reference engine *)

Lemma crt_key_odd (rsa : RSA) (p q : Z) :
  crt_key rsa p q -> 2 < q ->
  Z.odd p = true /\ Z.odd q = true /\ Z.odd (p * q) = true.
Proof.
  intros K Hq. destruct K.
  assert (Hop : Z.odd p = true) by (apply odd_prime_gt_2; trivial; lia).
  assert (Hoq : Z.odd q = true) by (now apply odd_prime_gt_2).
  repeat split; trivial. now rewrite Z.odd_mul, Hop, Hoq.
Qed.

Lemma invmod_prime_lt (p q : Z) :
  Z.prime p -> Z.prime q -> q < p -> (Z.invmod q p * q) mod p = 1.
Proof.
  intros Hp Hq Hlt. pose proof (prime_gt_1 _ Hq).
  apply Z.invmod_prime; [exact Hp|].
  rewrite Z.mod_small by lia. lia.
Qed.

(** The quick subtraction is the subtraction modulo [p] on its range. *)
Lemma sub_quick_mod (a b p : Z) :
  0 <= a < p -> 0 <= b < p ->
  (if a - b <? 0 then a - b + p else a - b) = (a - b) mod p.
Proof.
  intros Ha Hb. destruct (Z.ltb_spec (a - b) 0).
  - apply Z.mod_unique with (q := -1); lia.
  - symmetry. apply Z.mod_small. lia.
Qed.

(** Garner's recombination as the code computes it. *)
Lemma ref_garner (rsa : RSA) (p q : Z) (mp mq : BIGNUM) (w : world) :
  crt_key rsa p q -> 2 < q ->
  0 <= bn_val mp < p -> 0 <= bn_val mq < q ->
  garner rsa mp mq w
  = (Next (bn_of_Z (garner_formula (bn_val mp) (bn_val mq) q
                      (Z.invmod q p) p)), w).
Proof.
  intros K Hq2 Hmp Hmq.
  destruct (crt_key_odd _ _ _ K Hq2) as [Hop [Hoq Hon]].
  destruct K as [Hp Hq Hlt Hn Hpv Hqv Hqq Hiq Hqm].
  pose proof (prime_gt_1 _ Hq) as Hq1.
  unfold garner. unfold_flow.
  cbn [GFp_BN_mod_sub_quick GFp_BN_mod_mul_mont GFp_BN_add Ref.engine].
  unfold Ref.mod_sub_quick, Ref.mod_mul_mont, Ref.add.
  do 3 f_equal.
  rewrite !bn_val_of_Z, Hiq, Hqm.
  unfold Ref.to_mont, Ref.mont_R. rewrite Hpv, Hn.
  rewrite sub_quick_mod by lia.
  rewrite !mont_cancel by (trivial; unfold BN_BITS2; nia).
  rewrite Z.mul_mod_idemp_l by lia.
  unfold garner_formula.
  set (h := ((bn_val mp - bn_val mq) * Z.invmod q p) mod p).
  assert (Hh : 0 <= h < p) by (apply Z.mod_pos_bound; lia).
  rewrite Z.mod_small by nia. ring.
Qed.

(** Garner's formula on the two CRT halves is the direct
    exponentiation. *)
Lemma garner_formula_direct (p q dd b : Z) :
  Z.prime p -> Z.prime q -> q < p -> 0 <= dd ->
  dd mod (p - 1) <> 0 -> dd mod (q - 1) <> 0 ->
  garner_formula ((b mod p) ^ (dd mod (p - 1)) mod p)
                 ((b mod q) ^ (dd mod (q - 1)) mod q)
                 q (Z.invmod q p) p
  = (b ^ dd) mod (p * q).
Proof.
  intros Hp Hq Hlt Hd Hdp Hdq.
  pose proof (prime_gt_1 _ Hp). pose proof (prime_gt_1 _ Hq).
  apply garner_formula_crt; trivial.
  - apply Z.mod_pos_bound. lia.
  - now apply invmod_prime_lt.
  - rewrite Z.mod_mod by lia. rewrite Z.mod_pow_l.
    symmetry. apply pow_exp_mod_prime; auto.
  - rewrite Z.mod_pow_l. symmetry. apply pow_exp_mod_prime; auto.
Qed.

(** The CRT exponentiation as the code computes it. *)
Lemma ref_crt_exponentiate (rsa : RSA) (p q : Z) (base : BIGNUM) (w : world) :
  crt_key rsa p q -> p < q * q -> 0 <= bn_val base < p * q ->
  crt_exponentiate rsa base w
  = (Next (bn_of_Z ((bn_val base mod p) ^ bn_val (dmp1 rsa) mod p),
           bn_of_Z ((bn_val base mod q) ^ bn_val (dmq1 rsa) mod q)), w).
Proof.
  intros K Hbal Hb.
  destruct K as [Hp Hq Hlt Hn Hpv Hqv Hqq Hiq Hqm].
  pose proof (prime_gt_1 _ Hq) as Hq1.
  unfold crt_exponentiate. unfold_flow.
  cbn [GFp_BN_cmp GFp_BN_reduce_mont GFp_BN_mod_exp_mont_consttime Ref.engine].
  rewrite cmp_lt by lia.
  unfold Ref.reduce_mont, Ref.mod_exp_mont_consttime.
  rewrite Hpv, Hqv, Hqq.
  replace ((0 <=? bn_val base) && (bn_val base <? p * p)) with true
    by (symmetry; apply andb_true_iff; split;
        [apply Z.leb_le | apply Z.ltb_lt]; nia).
  replace ((0 <=? bn_val base) && (bn_val base <? q * q * (q * q))) with true
    by (symmetry; apply andb_true_iff; split;
        [apply Z.leb_le | apply Z.ltb_lt]; nia).
  rewrite !bn_val_of_Z.
  pose proof (Z.mod_pos_bound (bn_val base) (q * q) ltac:(nia)) as Hr.
  replace ((0 <=? bn_val base mod (q * q))
           && (bn_val base mod (q * q) <? q * q)) with true
    by (symmetry; apply andb_true_iff; split;
        [apply Z.leb_le | apply Z.ltb_lt]; lia).
  rewrite !bn_val_of_Z.
  rewrite !Zpow_mod_correct by lia.
  rewrite (Z.mod_mod_divide (bn_val base) (q * q) q)
    by (exists q; reflexivity).
  reflexivity.
Qed.

(** ** The test keys are keys *)

Lemma prime_5 : Z.prime 5.
Proof. apply is_prime_sound. vm_compute. reflexivity. Qed.

Lemma prime_11 : Z.prime 11.
Proof. apply is_prime_sound. vm_compute. reflexivity. Qed.

Lemma prime_131071 : Z.prime 131071.
Proof. apply is_prime_sound. vm_compute. reflexivity. Qed.

Lemma prime_131101 : Z.prime 131101.
Proof. apply is_prime_sound. vm_compute. reflexivity. Qed.

Lemma key_5_3_crt : crt_key key_5_3 5 3.
Proof.
  split; [exact prime_5 | exact Z.prime_3 | ..]; vm_compute; reflexivity.
Qed.

Lemma key_5_3_ok_crt : crt_key key_5_3_ok 5 3.
Proof.
  split; [exact prime_5 | exact Z.prime_3 | ..]; vm_compute; reflexivity.
Qed.

Lemma key_11_3_crt : crt_key key_11_3 11 3.
Proof.
  split; [exact prime_11 | exact Z.prime_3 | ..]; vm_compute; reflexivity.
Qed.

Lemma key17_crt : crt_key key17 131101 131071.
Proof.
  split; [exact prime_131101 | exact prime_131071 | ..]; vm_compute; reflexivity.
Qed.

Lemma key17_exponents : crt_exponents key17 131101 131071 495673973.
Proof. split; vm_compute; congruence. Qed.

Lemma key17_valid : valid_key key17 131101 131071 495673973.
Proof.
  split; [exact key17_crt | exact key17_exponents | ..];
    vm_compute; reflexivity.
Qed.

(** ** Garner's recombination and the direct exponentiation *)

(** C2, as the code has it: for primes [q < p], a private exponent
    [dd >= 0] whose CRT exponents [dmp1 = dd mod (p-1)] and
    [dmq1 = dd mod (q-1)] are not zero, and every blinded base
    [0 <= b < n], the recombination the code computes from
    [mp = (b mod p)^dmp1 mod p] and [mq = (b mod q)^dmq1 mod q] is
    Garner's formula, and it equals [b^dd mod n]. *)
Theorem garner_equals_direct_exponentiation
    (rsa : RSA) (p q dd b : Z) (w : world) :
  crt_key rsa p q ->
  crt_exponents rsa p q dd ->
  bn_val (dmp1 rsa) <> 0 ->
  bn_val (dmq1 rsa) <> 0 ->
  0 <= b < p * q ->
  let mp := (b mod p) ^ bn_val (dmp1 rsa) mod p in
  let mq := (b mod q) ^ bn_val (dmq1 rsa) mod q in
  garner rsa (bn_of_Z mp) (bn_of_Z mq) w
  = (Next (bn_of_Z (garner_formula mp mq q (Z.invmod q p) p)), w)
  /\ garner_formula mp mq q (Z.invmod q p) p = b ^ dd mod (p * q).
Proof.
  intros K X Hdp Hdq Hb mp mq.
  pose proof (ck_prime_p _ _ _ K) as Hp. pose proof (ck_prime_q _ _ _ K) as Hq.
  pose proof (ck_lt _ _ _ K) as Hlt.
  pose proof (prime_gt_1 _ Hq) as Hq1.
  destruct X as [Hd Hdp1 Hdq1].
  assert (Hq2 : 2 < q).
  { destruct (Z.eq_dec q 2) as [->|]; [|lia].
    exfalso. apply Hdq. rewrite Hdq1. apply Z.mod_1_r. }
  split.
  - rewrite (ref_garner rsa p q) by
      (trivial; rewrite bn_val_of_Z; apply Z.mod_pos_bound; lia).
    now rewrite !bn_val_of_Z.
  - unfold mp, mq. rewrite Hdp1, Hdq1.
    apply garner_formula_direct; trivial; congruence.
Qed.

(** C2 at [p = 5], [q = 3], [dd = 3] and the base 7. *)
Lemma garner_equals_direct_exponentiation_witness :
  garner_formula
    ((7 mod 5) ^ bn_val (dmp1 key_5_3_ok) mod 5)
    ((7 mod 3) ^ bn_val (dmq1 key_5_3_ok) mod 3)
    3 (Z.invmod 3 5) 5
  = 7 ^ 3 mod (5 * 3).
Proof.
  apply (garner_equals_direct_exponentiation key_5_3_ok 5 3 3 7
           (start [] []) key_5_3_ok_crt).
  - split; vm_compute; congruence.
  - vm_compute. discriminate.
  - vm_compute. discriminate.
  - lia.
Defined.

(** The claim C2 as it is stated fails at [p = 5], [q = 3], [dd = 4] and
    the base 5: every condition it lists holds, the code recombines to 1,
    and [5^4 mod 15] is 10. *)
Lemma garner_differs_when_crt_exponent_is_zero :
  crt_key key_5_3 5 3
  /\ crt_exponents key_5_3 5 3 4
  /\ 0 <= 5 < 5 * 3
  /\ (Z.invmod 3 5 * 3) mod 5 = 1
  /\ exists r,
       garner key_5_3
         (bn_of_Z ((5 mod 5) ^ bn_val (dmp1 key_5_3) mod 5))
         (bn_of_Z ((5 mod 3) ^ bn_val (dmq1 key_5_3) mod 3))
         (start [] [])
       = (Next r, start [] [])
       /\ bn_val r = 1
       /\ garner_formula ((5 mod 5) ^ bn_val (dmp1 key_5_3) mod 5)
            ((5 mod 3) ^ bn_val (dmq1 key_5_3) mod 3) 3 (Z.invmod 3 5) 5 = 1
       /\ 5 ^ 4 mod (5 * 3) = 10
       /\ bn_val r <> 5 ^ 4 mod (5 * 3).
Proof.
  split; [exact key_5_3_crt|].
  split; [split; vm_compute; congruence|].
  split; [lia|].
  split; [vm_compute; reflexivity|].
  exists (bn_of_Z 1).
  repeat split; try (vm_compute; reflexivity).
  vm_compute. discriminate.
Qed.

(** The same happens with matching exponents when [q = 2] (no key object
    exists for it, a Montgomery context needs an odd modulus): for
    [p = 3], [e = 3], [dd = 1] and the base 2 the formula gives 5. *)
Example garner_formula_at_even_prime :
  (3 * 1) mod Z.lcm (3 - 1) (2 - 1) = 1
  /\ garner_formula ((2 mod 3) ^ (1 mod (3 - 1)) mod 3)
       ((2 mod 2) ^ (1 mod (2 - 1)) mod 2) 2 (Z.invmod 2 3) 3 = 5
  /\ 2 ^ 1 mod (3 * 2) = 2.
Proof. repeat split; vm_compute; reflexivity. Qed.

(** ** The reductions of the blinded base *)

(** C8, as the code has it: for primes [q < p] with [p*q = n], the chains
    [p < n < p^2] and [q < q^2 < n] hold, and [n < q^3] holds exactly when
    [p < q^2].  A single reduction of the blinded base modulo [p] is
    within its range and yields [base mod p]; when [p < q^2], so are the
    reduction modulo [q^2] and then modulo [q], and they yield
    [base mod q]. *)
Theorem reduction_chains
    (rsa : RSA) (p q : Z) (base : BIGNUM) :
  crt_key rsa p q ->
  0 <= bn_val base < p * q ->
  chain_p p (p * q)
  /\ (q < q * q /\ q * q < p * q)
  /\ (chain_q q (p * q) <-> p < q * q)
  /\ (exists t, GFp_BN_reduce_mont base (mont_p rsa) = Some t
                /\ bn_val t = bn_val base mod p)
  /\ (p < q * q ->
      exists t1 t2,
        GFp_BN_reduce_mont base (mont_qq rsa) = Some t1
        /\ GFp_BN_reduce_mont t1 (mont_q rsa) = Some t2
        /\ bn_val t2 = bn_val base mod q).
Proof.
  intros K Hb.
  destruct K as [Hp Hq Hlt Hn Hpv Hqv Hqq Hiq Hqm].
  pose proof (prime_gt_1 _ Hq) as Hq1.
  cbn [GFp_BN_reduce_mont Ref.engine]. unfold Ref.reduce_mont.
  rewrite Hpv, Hqv, Hqq.
  split; [unfold chain_p; nia|].
  split; [nia|].
  split; [unfold chain_q; split; [intros [_ [_ H]] | intros H; repeat split]; nia|].
  split.
  - replace ((0 <=? bn_val base) && (bn_val base <? p * p)) with true
      by (symmetry; apply andb_true_iff; split;
          [apply Z.leb_le | apply Z.ltb_lt]; nia).
    eexists. split; [reflexivity|]. apply bn_val_of_Z.
  - intros Hbal.
    replace ((0 <=? bn_val base) && (bn_val base <? q * q * (q * q)))
      with true
      by (symmetry; apply andb_true_iff; split;
          [apply Z.leb_le | apply Z.ltb_lt]; nia).
    eexists. eexists. split; [reflexivity|].
    rewrite bn_val_of_Z.
    pose proof (Z.mod_pos_bound (bn_val base) (q * q) ltac:(nia)) as Hr.
    replace ((0 <=? bn_val base mod (q * q))
             && (bn_val base mod (q * q) <? q * q)) with true
      by (symmetry; apply andb_true_iff; split;
          [apply Z.leb_le | apply Z.ltb_lt]; lia).
    split; [reflexivity|].
    rewrite bn_val_of_Z. apply Z.mod_mod_divide. exists q. reflexivity.
Qed.

(** C8 at [key17] and the base 12345678901. *)
Lemma reduction_chains_witness :
  chain_p 131101 (131101 * 131071) /\ chain_q 131071 (131101 * 131071).
Proof.
  pose proof (reduction_chains key17 131101 131071 (bn_of_Z 12345678901)
                key17_crt) as H.
  destruct H as [Hp [_ [Hq _]]].
  - vm_compute. split; congruence.
  - split; [exact Hp|]. apply Hq. lia.
Defined.

(** The claim C8 as it is stated fails at [p = 11], [q = 3]: [q < p] and
    [p*q = 33], but 33 is not below [q^3 = 27]. *)
Lemma chain_q_fails_for_unbalanced_primes :
  crt_key key_11_3 11 3
  /\ 3 < 11
  /\ bn_val (N (mont_n key_11_3)) = 11 * 3
  /\ ~ chain_q 3 (11 * 3).
Proof.
  split; [exact key_11_3_crt|]. split; [lia|].
  split; [vm_compute; reflexivity|].
  unfold chain_q. lia.
Qed.

(** ** The public transform on the reference engine *)

Lemma num_bits_val (a b : BIGNUM) :
  bn_val a = bn_val b -> Ref.num_bits a = Ref.num_bits b.
Proof. intros H. unfold Ref.num_bits. now rewrite H. Qed.

Lemma num_bytes_val (a b : BIGNUM) :
  bn_val a = bn_val b -> Ref.num_bytes a = Ref.num_bytes b.
Proof. intros H. unfold Ref.num_bytes. now rewrite (num_bits_val a b H). Qed.

(** The validator returns 1 and leaves the state, or returns 0 with one
    more reason on the queue. *)
Lemma check_result (n e : BIGNUM) (min_bits max_bits : Z) (w : world) :
  (GFp_rsa_check_modulus_and_exponent n e min_bits max_bits w = (Next 1, w)
   /\ 33 < Ref.num_bits n)
  \/ exists r,
       GFp_rsa_check_modulus_and_exponent n e min_bits max_bits w
       = (Next 0, with_error w r).
Proof.
  rewrite check_cases.
  repeat match goal with
         | |- context [if ?c then _ else _] =>
             lazymatch c with
             | Ref.num_bits n <=? 33 => fail
             | _ => destruct c; [right; eexists; reflexivity|]
             end
         end.
  destruct (Z.leb_spec (Ref.num_bits n) 33);
    [right; eexists; reflexivity | left; split; [reflexivity | lia]].
Qed.

Lemma validator_pass (n e : BIGNUM) (min_bits max_bits : Z) (w : world) :
  first_violated
    (validator_checks (Ref.num_bits n) (Ref.num_bits e) (Z.odd (bn_val e))
       min_bits max_bits) = None ->
  GFp_rsa_check_modulus_and_exponent n e min_bits max_bits w = (Next 1, w).
Proof.
  unfold validator_checks, first_violated. intros H.
  destruct (Z.leb_spec min_bits (Ref.num_bits n)) as [H1|]; [|discriminate].
  destruct (Z.leb_spec (Ref.num_bits n) (Z.min max_bits 16384)) as [H2|];
    [|discriminate].
  destruct (Z.leb_spec 2 (Ref.num_bits e)) as [H3|]; [|discriminate].
  destruct (Z.leb_spec (Ref.num_bits e) 33) as [H4|]; [|discriminate].
  destruct (Z.odd (bn_val e)) eqn:H5; [|discriminate].
  destruct (Z.ltb_spec 33 (Ref.num_bits n)) as [H6|]; [|discriminate].
  rewrite check_cases, H5.
  rewrite (proj2 (Z.ltb_ge _ _) H1).
  replace ((16 * 1024 <? Ref.num_bits n) || (max_bits <? Ref.num_bits n))
    with false
    by (symmetry; apply orb_false_iff; split; apply Z.ltb_ge; lia).
  rewrite (proj2 (Z.ltb_ge _ _) H3), (proj2 (Z.ltb_ge _ _) H4).
  cbn [negb]. now rewrite (proj2 (Z.leb_gt _ _) H6).
Qed.

Lemma num_bits_pos_nonzero (b : BIGNUM) :
  0 < Ref.num_bits b -> bn_val b <> 0.
Proof.
  unfold Ref.num_bits. intros H Hz. rewrite Hz in H. simpl in H. lia.
Qed.

(** The write of a value that fits. *)
Lemma ref_bn2bin_padded_fits (buf : list byte) (v : Z) :
  0 <= v < 256 ^ Z.of_nat (length buf) ->
  Ref.bn2bin_padded buf (bn_of_Z v) = (true, be_bytes (length buf) v).
Proof.
  intros Hv. unfold Ref.bn2bin_padded. rewrite bn_val_of_Z.
  rewrite Z.abs_eq by lia.
  now rewrite (proj2 (Z.ltb_lt _ _) (proj2 Hv)).
Qed.

(** C5: whenever the public transform succeeds, the input [f] is below
    the modulus and the output buffer holds the big-endian encoding of
    [f^e mod n], left-zero-padded to the modulus byte length. *)
Theorem public_decrypt_output
    (nb eb in_ : list byte) (min_bits max_bits : Z) (w w' : world) :
  GFp_rsa_public_decrypt nb eb in_ min_bits max_bits w = (Returned 1, w') ->
  let n := be_value nb in
  let ev := be_value eb in
  let f := be_value in_ in
  f < n
  /\ Z.of_nat (length (buffer w)) = Ref.num_bytes (bn_of_Z n)
  /\ buffer w' = be_bytes (length (buffer w)) (f ^ ev mod n)
  /\ length (buffer w') = length (buffer w)
  /\ be_value (buffer w') = f ^ ev mod n.
Proof.
  intros Hrun n ev f. rewrite public_decrypt_cases in Hrun.
  cbn [GFp_BN_bin2bn GFp_BN_num_bytes GFp_BN_ucmp
       GFp_BN_mod_exp_mont_vartime GFp_BN_bn2bin_padded Ref.engine] in Hrun.
  unfold Ref.bin2bn in Hrun. fold n ev f in Hrun.
  destruct (Z.eqb_spec (Z.of_nat (length (buffer w)))
              (Ref.num_bytes (bn_of_Z n))) as [Hout|]; [|discriminate].
  cbn [negb] in Hrun.
  destruct (negb (Z.of_nat (length in_) =? Ref.num_bytes (bn_of_Z n)));
    [discriminate|].
  destruct (check_result (bn_of_Z n) (bn_of_Z ev) min_bits max_bits w)
    as [[Hc Hbits]|[r Hc]]; rewrite Hc in Hrun; [|discriminate].
  cbn [Z.eqb] in Hrun.
  pose proof (num_bits_pos_nonzero (bn_of_Z n) ltac:(lia)) as Hn0.
  rewrite bn_val_of_Z in Hn0.
  pose proof (be_value_range nb) as Hnr. fold n in Hnr.
  pose proof (be_value_range in_) as Hfr. fold f in Hfr.
  destruct (Z.leb_spec 0 (Ref.ucmp (bn_of_Z f) (bn_of_Z n))) as [|Hcmp];
    [discriminate|].
  assert (Hfn : f < n).
  { destruct (Z_lt_le_dec f n) as [|Hge]; [assumption|].
    pose proof (ucmp_ge (bn_of_Z f) (bn_of_Z n)) as Hu.
    rewrite !bn_val_of_Z in Hu. apply Z.leb_le in Hu; lia. }
  unfold Ref.mod_exp_mont_vartime, written in Hrun.
  cbn [GFp_BN_bn2bin_padded Ref.engine] in Hrun.
  rewrite !bn_val_of_Z, Zpow_mod_correct in Hrun by lia.
  unfold Ref.bn2bin_padded in Hrun. rewrite bn_val_of_Z in Hrun.
  pose proof (Z.mod_pos_bound (f ^ ev) n ltac:(lia)) as Hres.
  rewrite Z.abs_eq in Hrun by lia.
  destruct (Z.ltb_spec (f ^ ev mod n) (256 ^ Z.of_nat (length (buffer w))))
    as [Hfit|]; cbn [fst snd] in Hrun; [|discriminate].
  inversion Hrun; subst w'; cbn [buffer].
  repeat split; trivial.
  - apply be_bytes_length.
  - apply be_bytes_inj_value. lia.
Qed.

(** C5 at the public key of [key17]. *)
Lemma public_decrypt_output_witness :
  be_value [x00; x4c; xd0; x2b; x9b] < be_value key17_n
  /\ be_bytes 5 (be_value [x00; x4c; xd0; x2b; x9b] ^ be_value key17_e
                 mod be_value key17_n)
     = [x01; x23; x45; x67; x89].
Proof.
  pose proof (public_decrypt_output key17_n key17_e
                [x00; x4c; xd0; x2b; x9b] 34 8192
                (start [x00; x00; x00; x00; x00] [])
                (start [x01; x23; x45; x67; x89] [])) as H.
  destruct H as [H1 [_ [H3 _]]].
  - vm_compute. reflexivity.
  - split; [exact H1|]. symmetry. exact H3.
Defined.

(** ** Inputs at or above the modulus *)

(** C6, as the code has it: for every input block whose value is at least
    the modulus, the private transform fails with
    [RSA_R_DATA_TOO_LARGE_FOR_MODULUS]; the public transform fails as
    well and leaves the output buffer as it was, and it fails with
    [RSA_R_DATA_TOO_LARGE_FOR_MODULUS] when both buffer lengths are the
    modulus byte length and the key passes the validator (an earlier
    check that fails reports its own error).  No call reduces the input
    modulo [n]. *)
Theorem data_too_large_rejected :
  (forall rsa w,
      Z.abs (bn_val (N (mont_n rsa))) <= be_value (buffer w) ->
      GFp_rsa_private_transform rsa w
      = (Returned 0, with_error w RSA_R_DATA_TOO_LARGE_FOR_MODULUS))
  /\ (forall nb eb in_ min_bits max_bits w,
      be_value nb <= be_value in_ ->
      (fst (GFp_rsa_public_decrypt nb eb in_ min_bits max_bits w) = Returned 0
       /\ buffer (snd (GFp_rsa_public_decrypt nb eb in_ min_bits max_bits w))
          = buffer w)
      /\ (Z.of_nat (length (buffer w)) = Ref.num_bytes (bn_of_Z (be_value nb)) ->
          Z.of_nat (length in_) = Ref.num_bytes (bn_of_Z (be_value nb)) ->
          first_violated
            (validator_checks (Ref.num_bits (bn_of_Z (be_value nb)))
               (Ref.num_bits (bn_of_Z (be_value eb)))
               (Z.odd (be_value eb)) min_bits max_bits) = None ->
          GFp_rsa_public_decrypt nb eb in_ min_bits max_bits w
          = (Returned 0, with_error w RSA_R_DATA_TOO_LARGE_FOR_MODULUS)))
  /\ error_kind RSA_R_DATA_TOO_LARGE_FOR_MODULUS = DataTooLargeForModulus.
Proof.
  split; [|split; [|reflexivity]].
  - intros rsa w Hge.
    unfold GFp_rsa_private_transform, GFp_rsa_private_transform_body,
      blind_and_recombine.
    unfold_flow. cbn [GFp_BN_bin2bn GFp_BN_ucmp Ref.engine].
    unfold Ref.bin2bn.
    rewrite ucmp_ge; [reflexivity|].
    rewrite bn_val_of_Z. pose proof (be_value_range (buffer w)). lia.
  - intros nb eb in_ min_bits max_bits w Hge.
    pose proof (be_value_range nb) as Hnr.
    pose proof (be_value_range in_) as Hfr.
    assert (Hu : (0 <=? Ref.ucmp (bn_of_Z (be_value in_))
                          (bn_of_Z (be_value nb))) = true)
      by (apply ucmp_ge; rewrite !bn_val_of_Z; lia).
    rewrite public_decrypt_cases.
    cbn [GFp_BN_bin2bn GFp_BN_num_bytes GFp_BN_ucmp Ref.engine].
    unfold Ref.bin2bn. rewrite Hu.
    split.
    + destruct (negb (_ =? _)); [split; reflexivity|].
      destruct (negb (_ =? _)); [split; reflexivity|].
      destruct (check_result (bn_of_Z (be_value nb)) (bn_of_Z (be_value eb))
                  min_bits max_bits w) as [[Hc _]|[r Hc]]; rewrite Hc;
        split; reflexivity.
    + intros Hout Hin Hpass.
      rewrite <- (bn_val_of_Z (be_value eb)) in Hpass at 2.
      rewrite (validator_pass _ _ _ _ w Hpass).
      apply Z.eqb_eq in Hout, Hin. now rewrite Hout, Hin.
Qed.

(** C6 at [key17]: the block [ff ff ff ff ff] is above the modulus. *)
Lemma data_too_large_rejected_witness :
  GFp_rsa_private_transform key17 (start [xff; xff; xff; xff; xff] [12345])
  = (Returned 0,
     with_error (start [xff; xff; xff; xff; xff] [12345])
       RSA_R_DATA_TOO_LARGE_FOR_MODULUS)
  /\ GFp_rsa_public_decrypt key17_n key17_e [xff; xff; xff; xff; xff]
       34 8192 (start [x00; x00; x00; x00; x00] [])
     = (Returned 0,
        with_error (start [x00; x00; x00; x00; x00] [])
          RSA_R_DATA_TOO_LARGE_FOR_MODULUS).
Proof.
  destruct data_too_large_rejected as [Hpriv [Hpub _]].
  split.
  - apply Hpriv. vm_compute. discriminate.
  - apply Hpub; vm_compute; congruence.
Defined.

(** The claim C6 as it is stated fails for the public transform at the
    modulus 15, the exponent 3 and the input block [ff]: the block is
    above the modulus, both buffers have the modulus byte length, and the
    call fails with [RSA_R_KEY_SIZE_TOO_SMALL], not with
    DataTooLargeForModulus. *)
Lemma too_large_input_reports_key_size_first :
  be_value [x0f] <= be_value [xff]
  /\ GFp_rsa_public_decrypt [x0f] [x03] [xff] 0 8192 (start [x00] [])
     = (Returned 0, with_error (start [x00] []) RSA_R_KEY_SIZE_TOO_SMALL)
  /\ error_kind RSA_R_KEY_SIZE_TOO_SMALL <> DataTooLargeForModulus.
Proof.
  split; [vm_compute; discriminate|].
  split; [vm_compute; reflexivity | discriminate].
Qed.

(** ** The round trip *)

Lemma draw_unit_spec (n : Z) (rg : RAND) (x : Z) (rest : RAND) :
  0 < n -> Ref.draw_unit n rg = Some (x, rest) ->
  Z.coprime x n /\ 0 <= x < n.
Proof.
  intros Hn. induction rg as [|y t IH]; cbn [Ref.draw_unit]; [discriminate|].
  destruct (Z.eqb_spec (Z.gcd (y mod n) n) 1) as [Hg|]; [|exact IH].
  intros H. inversion H; subst. split; [exact Hg|].
  apply Z.mod_pos_bound. exact Hn.
Qed.

(** Blinding with [x^ev], raising to [dd] and multiplying by the inverse
    of [x] is raising to [dd]. *)
Lemma unblind_identity (p q ev dd m x : Z) :
  Z.prime p -> Z.prime q -> p <> q -> 0 <= ev -> 0 <= dd ->
  (ev * dd) mod Z.lcm (p - 1) (q - 1) = 1 ->
  Z.coprime x (p * q) ->
  ((((m * (x ^ ev mod (p * q))) mod (p * q)) ^ dd mod (p * q))
   * Z.invmod x (p * q)) mod (p * q)
  = m ^ dd mod (p * q).
Proof.
  intros Hp Hq Hne Hev Hdd Hed Hx.
  pose proof (prime_gt_1 _ Hp). pose proof (prime_gt_1 _ Hq).
  assert (Hn : 2 <= p * q) by nia.
  assert (E1 : ((m * (x ^ ev mod (p * q))) mod (p * q)) ^ dd mod (p * q)
               = (m ^ dd * x) mod (p * q)).
  { rewrite Z.mod_pow_l, Z.pow_mul_l.
    rewrite <- Z.mul_mod_idemp_r by lia.
    rewrite Z.mod_pow_l, <- Z.pow_mul_r by lia.
    rewrite (rsa_identity p q x ev dd) by (trivial; nia).
    now rewrite Z.mul_mod_idemp_r by lia. }
  rewrite E1, Z.mul_mod_idemp_l, <- Z.mul_assoc by lia.
  rewrite <- Z.mul_mod_idemp_r by lia.
  rewrite (Z.mul_comm x), (Z.invmod_coprime x (p * q)) by trivial.
  now rewrite Z.mul_1_r.
Qed.

(** The check value of a correct result is the blinded base. *)
Lemma verify_identity (p q ev dd b : Z) :
  Z.prime p -> Z.prime q -> p <> q -> 0 <= ev -> 0 <= dd ->
  (ev * dd) mod Z.lcm (p - 1) (q - 1) = 1 ->
  0 <= b < p * q ->
  (b ^ dd mod (p * q)) ^ ev mod (p * q) = b.
Proof.
  intros Hp Hq Hne Hev Hdd Hed Hb.
  rewrite Z.mod_pow_l, <- Z.pow_mul_r, (Z.mul_comm dd) by lia.
  rewrite (rsa_identity p q b ev dd) by (trivial; nia).
  now apply Z.mod_small.
Qed.

(** ** The fault check detects every wrong result *)

(** Raising to the public exponent is injective below the modulus. *)
Lemma rsa_pow_injective (p q ev dd r1 r2 : Z) :
  Z.prime p -> Z.prime q -> p <> q -> 0 <= ev -> 0 <= dd ->
  (ev * dd) mod Z.lcm (p - 1) (q - 1) = 1 ->
  0 <= r1 < p * q -> 0 <= r2 < p * q ->
  r1 ^ ev mod (p * q) = r2 ^ ev mod (p * q) ->
  r1 = r2.
Proof.
  intros Hp Hq Hne Hev Hdd Hed H1 H2 Heq.
  assert (Hback : forall r, 0 <= r < p * q ->
                  (r ^ ev mod (p * q)) ^ dd mod (p * q) = r).
  { intros r Hr. rewrite Z.mod_pow_l, <- Z.pow_mul_r by lia.
    rewrite (rsa_identity p q r ev dd) by (trivial; nia).
    now apply Z.mod_small. }
  rewrite <- (Hback r1 H1), <- (Hback r2 H2). now rewrite Heq.
Qed.

(** Canonical integers that differ in value differ in [top] or in a
    word. *)
Lemma ref_vrfy_mismatch_neq (x y : Z) :
  0 <= x -> 0 <= y -> x <> y ->
  @vrfy_mismatch Ref.engine (bn_of_Z x) (bn_of_Z y) = true.
Proof.
  intros Hx Hy Hne.
  destruct (@vrfy_mismatch Ref.engine (bn_of_Z x) (bn_of_Z y)) eqn:Hm;
    [reflexivity|].
  exfalso. apply Hne. apply bn_of_Z_inj.
  unfold vrfy_mismatch in Hm. apply orb_false_iff in Hm.
  destruct Hm as [Htop Hcmp].
  apply negb_false_iff, Nat.eqb_eq in Htop.
  apply negb_false_iff, Z.eqb_eq in Hcmp.
  cbn [GFp_memcmp Ref.engine] in Hcmp. unfold Ref.memcmp in Hcmp.
  destruct (list_eq_dec Z.eq_dec _ _) as [Hw|]; [|discriminate].
  rewrite Z.div_mul, Nat2Z.id in Hw by (unfold BN_BYTES; lia).
  unfold bn_of_Z in *. cbn [top d] in *.
  rewrite firstn_all in Hw. rewrite Htop, firstn_all in Hw.
  rewrite Hw.
  rewrite (proj2 (Z.ltb_ge x 0) Hx), (proj2 (Z.ltb_ge y 0) Hy).
  reflexivity.
Qed.

(** X6, fault-check soundness: with a valid key, a result [r'] below the
    modulus that is not [b^dd mod n] never passes the check; the call
    fails with [ERR_R_INTERNAL_ERROR] and writes nothing. *)
Lemma fault_detected
    (rsa : RSA) (p q dd b r' : Z) (w : world) :
  valid_key rsa p q dd ->
  0 <= b < p * q -> 0 <= r' < p * q ->
  r' <> b ^ dd mod (p * q) ->
  at_err_label 1 (verify_and_release rsa (bn_of_Z b) (bn_of_Z r')) w
  = (Returned 0, with_error w ERR_R_INTERNAL_ERROR).
Proof.
  intros V Hb Hr Hne.
  destruct V as [K X Hq2 Hbal Hev Hed].
  pose proof (ck_prime_p _ _ _ K) as Hp. pose proof (ck_prime_q _ _ _ K) as Hq.
  pose proof (ck_lt _ _ _ K) as Hlt. pose proof (ck_n _ _ _ K) as Hn.
  pose proof (prime_gt_1 _ Hq) as Hq1.
  destruct X as [Hd _ _].
  assert (Hnpos : 0 < p * q) by nia.
  rewrite verify_and_release_cases.
  cbn [GFp_BN_mod_exp_mont_vartime Ref.engine].
  unfold Ref.mod_exp_mont_vartime.
  rewrite !bn_val_of_Z, Hn, Zpow_mod_correct by lia.
  rewrite ref_vrfy_mismatch_neq; [reflexivity | | lia |].
  - apply Z.mod_pos_bound. lia.
  - intros Heq. apply Hne.
    pose proof (Z.mod_pos_bound (b ^ dd) (p * q) Hnpos) as Hs.
    apply (rsa_pow_injective p q (bn_val (e rsa)) dd); trivial; try lia.
    rewrite Heq. symmetry. apply verify_identity; trivial; lia.
Qed.

(** ** The private transform of a valid key *)

(** A valid key has CRT exponents that are not zero, and odd primes. *)
Lemma valid_key_facts (rsa : RSA) (p q dd : Z) :
  valid_key rsa p q dd ->
  2 < q /\ dd mod (p - 1) <> 0 /\ dd mod (q - 1) <> 0.
Proof.
  intros [K X Hq2 Hbal Hev Hed].
  destruct K as [Hp Hq Hlt _ _ _ _ _ _]. destruct X as [Hd _ _].
  pose proof (prime_gt_1 _ Hq) as Hq1.
  assert (Hcyc : forall r, Z.prime r -> r = p \/ r = q ->
                 (bn_val (e rsa) * dd) mod (r - 1) = 1 mod (r - 1)).
  { intros r Hr Hor.
    assert (Hdiv : (r - 1 | Z.lcm (p - 1) (q - 1)))
      by (destruct Hor; subst r;
          [apply Z.divide_lcm_l | apply Z.divide_lcm_r]).
    rewrite <- (Z.mod_mod_divide _ _ _ Hdiv), Hed. reflexivity. }
  assert (Hnz : forall r, Z.prime r -> r = p \/ r = q -> 2 < r ->
                dd mod (r - 1) <> 0).
  { intros r Hr Hor H2 Hz. pose proof (Hcyc r Hr Hor) as Hc.
    rewrite <- Z.mul_mod_idemp_r, Hz, Z.mul_0_r in Hc by lia.
    rewrite Zmod_0_l, Z.mod_small in Hc by lia. discriminate. }
  repeat split; [exact Hq2 | apply Hnz | apply Hnz]; auto; lia.
Qed.

(** The private transform of a valid key on a block below the modulus:
    it returns 1 and the buffer holds the block raised to [dd]. *)
Lemma ref_private_transform
    (rsa : RSA) (p q dd x : Z) (rest : RAND) (w : world) :
  valid_key rsa p q dd ->
  be_value (buffer w) < p * q ->
  Ref.draw_unit (p * q) (rng w) = Some (x, rest) ->
  Z.of_nat (length (buffer w)) = Ref.num_bytes (N (mont_n rsa)) ->
  GFp_rsa_private_transform rsa w
  = (Returned 1,
     {| buffer := be_bytes (length (buffer w))
                    (be_value (buffer w) ^ dd mod (p * q));
        blinding := {| A := bn_of_Z (x ^ bn_val (e rsa) mod (p * q));
                       Ai := bn_of_Z (Z.invmod x (p * q)) |};
        rng := rest;
        err_queue := err_queue w |}).
Proof.
  intros V Hm Hdraw Hlen.
  destruct (valid_key_facts _ _ _ _ V) as [_ [Hdp Hdq]].
  destruct V as [K X Hq2 Hbal Hev Hed].
  pose proof (ck_prime_p _ _ _ K) as Hp. pose proof (ck_prime_q _ _ _ K) as Hq.
  pose proof (ck_lt _ _ _ K) as Hlt. pose proof (ck_n _ _ _ K) as Hn.
  pose proof (prime_gt_1 _ Hq) as Hq1.
  destruct X as [Hd Hdp1 Hdq1].
  assert (Hnpos : 0 < p * q) by nia.
  destruct (draw_unit_spec _ _ _ _ Hnpos Hdraw) as [Hcop Hx].
  pose proof (be_value_range (buffer w)) as Hmr.
  set (m := be_value (buffer w)) in *.
  set (n := p * q) in *.
  set (ev := bn_val (e rsa)) in *.
  set (b := (m * (x ^ ev mod n)) mod n).
  assert (Hb : 0 <= b < n) by (apply Z.mod_pos_bound; lia).
  set (w1 := {| buffer := buffer w;
                blinding := {| A := bn_of_Z (x ^ ev mod n);
                               Ai := bn_of_Z (Z.invmod x n) |};
                rng := rest; err_queue := err_queue w |}).
  assert (Hpre : blind_and_recombine rsa w
                 = (Next (bn_of_Z b, bn_of_Z (b ^ dd mod n)), w1)).
  { unfold blind_and_recombine, blinding_convert. unfold_flow.
    cbn [GFp_BN_bin2bn GFp_BN_ucmp GFp_BN_BLINDING_convert Ref.engine].
    unfold Ref.bin2bn. fold m.
    rewrite ucmp_lt by (rewrite bn_val_of_Z, Hn; lia).
    unfold Ref.BLINDING_convert. rewrite Hn. fold n. rewrite Hdraw.
    rewrite bn_val_of_Z, Zpow_mod_correct by lia. fold ev b w1.
    rewrite (ref_crt_exponentiate rsa p q)
      by (trivial; rewrite bn_val_of_Z; exact Hb).
    cbn [fst snd].
    rewrite (ref_garner rsa p q)
      by (trivial; rewrite bn_val_of_Z; apply Z.mod_pos_bound; lia).
    rewrite !bn_val_of_Z, Hdp1, Hdq1.
    rewrite garner_formula_direct by trivial.
    reflexivity. }
  rewrite private_transform_cases, Hpre. cbn [fst snd].
  rewrite verify_and_release_cases.
  cbn [GFp_BN_mod_exp_mont_vartime GFp_BN_BLINDING_invert
       GFp_BN_bn2bin_padded Ref.engine].
  unfold Ref.mod_exp_mont_vartime, Ref.BLINDING_invert, written.
  cbn [GFp_BN_bn2bin_padded Ref.engine].
  rewrite !bn_val_of_Z, Hn. fold n ev.
  rewrite Zpow_mod_correct by lia.
  assert (Hv : (b ^ dd mod n) ^ ev mod n = b)
    by (apply verify_identity; trivial; lia).
  rewrite !Hv, ref_vrfy_match.
  cbn [w1 blinding Ai buffer rng err_queue]. rewrite bn_val_of_Z.
  assert (Hu : (b ^ dd mod n * Z.invmod x n) mod n = m ^ dd mod n)
    by (apply unblind_identity; trivial; lia).
  rewrite !Hu.
  pose proof (Z.mod_pos_bound (m ^ dd) n ltac:(lia)) as Hs.
  pose proof (num_bytes_fits (N (mont_n rsa))) as Hfit.
  rewrite Hn, <- Hlen in Hfit. fold n in Hfit.
  rewrite ref_bn2bin_padded_fits by lia.
  reflexivity.
Qed.

(** C1: for a validly constructed key and a message below the modulus in
    a buffer of the modulus byte length, the private transform succeeds
    and leaves the message raised to the private exponent; the public
    transform with the same [n] and [e] on that result succeeds and its
    output is the original message buffer, byte for byte. *)
Theorem private_then_public_round_trip
    (rsa : RSA) (p q dd : Z) (nb eb : list byte) (min_bits max_bits : Z)
    (x : Z) (rest : RAND) (w : world) :
  valid_key rsa p q dd ->
  be_value (buffer w) < p * q ->
  Z.of_nat (length (buffer w)) = Ref.num_bytes (N (mont_n rsa)) ->
  Ref.draw_unit (p * q) (rng w) = Some (x, rest) ->
  be_value nb = p * q ->
  be_value eb = bn_val (e rsa) ->
  first_violated
    (validator_checks (Ref.num_bits (N (mont_n rsa))) (Ref.num_bits (e rsa))
       (Z.odd (bn_val (e rsa))) min_bits max_bits) = None ->
  exists w1,
    GFp_rsa_private_transform rsa w = (Returned 1, w1)
    /\ buffer w1
       = be_bytes (length (buffer w)) (be_value (buffer w) ^ dd mod (p * q))
    /\ forall w2,
         length (buffer w2) = length (buffer w) ->
         GFp_rsa_public_decrypt nb eb (buffer w1) min_bits max_bits w2
         = (Returned 1,
            {| buffer := buffer w; blinding := blinding w2; rng := rng w2;
               err_queue := err_queue w2 |}).
Proof.
  intros V Hm Hlen Hdraw Hnb Heb Hpass.
  eexists.
  split; [exact (ref_private_transform rsa p q dd x rest w V Hm Hdraw Hlen)|].
  cbn [buffer]. split; [reflexivity|].
  intros w2 Hlen2.
  destruct V as [K X Hq2 Hbal Hev Hed].
  pose proof (ck_prime_p _ _ _ K) as Hp. pose proof (ck_prime_q _ _ _ K) as Hq.
  pose proof (ck_lt _ _ _ K) as Hlt. pose proof (ck_n _ _ _ K) as Hn.
  pose proof (prime_gt_1 _ Hq) as Hq1.
  destruct X as [Hd Hdp1 Hdq1].
  pose proof (be_value_range (buffer w)) as Hmr.
  set (m := be_value (buffer w)) in *.
  set (n := p * q) in *.
  set (ev := bn_val (e rsa)) in *.
  assert (Hnpos : 0 < n) by (unfold n; nia).
  pose proof (Z.mod_pos_bound (m ^ dd) n Hnpos) as Hs.
  pose proof (num_bytes_fits (N (mont_n rsa))) as Hfit.
  rewrite Hn, <- Hlen in Hfit. fold n in Hfit.
  assert (Hvaln : bn_val (bn_of_Z n) = bn_val (N (mont_n rsa)))
    by (rewrite bn_val_of_Z; symmetry; exact Hn).
  assert (Hvale : bn_val (bn_of_Z ev) = bn_val (e rsa))
    by apply bn_val_of_Z.
  rewrite public_decrypt_cases.
  cbn [GFp_BN_bin2bn GFp_BN_num_bytes GFp_BN_ucmp
       GFp_BN_mod_exp_mont_vartime GFp_BN_bn2bin_padded Ref.engine].
  unfold Ref.bin2bn. rewrite Hnb, Heb. fold n ev.
  rewrite (num_bytes_val _ _ Hvaln).
  rewrite be_bytes_length, Hlen2.
  rewrite (proj2 (Z.eqb_eq _ _) Hlen). cbn [negb].
  rewrite (validator_pass (bn_of_Z n) (bn_of_Z ev) min_bits max_bits w2)
    by (rewrite (num_bits_val _ _ Hvaln), (num_bits_val _ _ Hvale), Hvale;
        exact Hpass).
  cbn [Z.eqb].
  rewrite be_bytes_inj_value by lia.
  rewrite ucmp_lt by (rewrite !bn_val_of_Z; lia).
  unfold Ref.mod_exp_mont_vartime, written.
  cbn [GFp_BN_bn2bin_padded Ref.engine].
  rewrite !bn_val_of_Z, Zpow_mod_correct by lia.
  assert (Hv : (m ^ dd mod n) ^ ev mod n = m)
    by (apply verify_identity; trivial; lia).
  rewrite !Hv.
  rewrite ref_bn2bin_padded_fits by (rewrite Hlen2; lia).
  cbn [fst snd]. rewrite Hlen2. unfold m. rewrite be_bytes_value.
  reflexivity.
Qed.

(** C1 at [key17] and the message [01 23 45 67 89]. *)
Lemma private_then_public_round_trip_witness :
  exists w1,
    GFp_rsa_private_transform key17 (start msg17 [12345]) = (Returned 1, w1)
    /\ GFp_rsa_public_decrypt key17_n key17_e (buffer w1) 34 8192
         (start zeros5 [])
       = (Returned 1, start msg17 []).
Proof.
  assert (Hm : be_value (buffer (start msg17 [12345])) < 131101 * 131071)
    by (vm_compute; reflexivity).
  assert (Hlen : Z.of_nat (length (buffer (start msg17 [12345])))
                 = Ref.num_bytes (N (mont_n key17)))
    by (vm_compute; reflexivity).
  assert (Hdraw : Ref.draw_unit (131101 * 131071)
                    (rng (start msg17 [12345])) = Some (12345, []))
    by (vm_compute; reflexivity).
  assert (Hnb : be_value key17_n = 131101 * 131071)
    by (vm_compute; reflexivity).
  assert (Heb : be_value key17_e = bn_val (e key17))
    by (vm_compute; reflexivity).
  assert (Hpass : first_violated
                    (validator_checks (Ref.num_bits (N (mont_n key17)))
                       (Ref.num_bits (e key17)) (Z.odd (bn_val (e key17)))
                       34 8192) = None)
    by (vm_compute; reflexivity).
  destruct (private_then_public_round_trip key17 131101 131071 495673973
              key17_n key17_e 34 8192 12345 [] (start msg17 [12345])
              key17_valid Hm Hlen Hdraw Hnb Heb Hpass) as [w1 [H1 [_ H3]]].
  exists w1. split; [exact H1|]. apply (H3 (start zeros5 [])). reflexivity.
Defined.

(** ** Witnesses on the reference engine *)

(** C3 at [key17] on the engine with the injected fault: [mp] is
    corrupted, the check value differs from the blinded base, and the call
    fails with InternalError and the buffer as it was. *)
Lemma fault_check_fails_closed_witness :
  fst (@GFp_rsa_private_transform faulty_engine key17 (start msg17 [12345]))
  = Returned 0
  /\ err_queue (snd (@GFp_rsa_private_transform faulty_engine key17
                       (start msg17 [12345])))
     = [ERR_R_INTERNAL_ERROR]
  /\ buffer (snd (@GFp_rsa_private_transform faulty_engine key17
                    (start msg17 [12345])))
     = msg17.
Proof.
  edestruct (@fault_check_fails_closed faulty_engine key17
               (start msg17 [12345])) as [H1 [_ H3]].
  - vm_compute. reflexivity.
  - vm_compute. reflexivity.
  - right. vm_compute. discriminate.
  - split; [rewrite H1; reflexivity|].
    split; [rewrite H1; vm_compute; reflexivity | exact H3].
Defined.

(** C10 at [key17]: a block above the modulus fails in both transforms
    and both buffers are as they were. *)
Lemma failure_leaves_buffer_unmodified_witness :
  buffer (snd (GFp_rsa_private_transform key17 (start block_ff [12345])))
  = block_ff
  /\ buffer (snd (GFp_rsa_public_decrypt key17_n key17_e block_ff 34 8192
                    (start zeros5 [])))
     = zeros5.
Proof.
  destruct (@failure_leaves_buffer_unmodified Ref.engine
              ref_bn2bin_padded_frame) as [Hpriv Hpub].
  split.
  - apply (Hpriv key17 (start block_ff [12345])).
    vm_compute. discriminate.
  - apply (Hpub key17_n key17_e block_ff 34 8192 (start zeros5 [])).
    vm_compute. discriminate.
Defined.

(** C7 at the public key of [key17]: an output buffer of four bytes, and
    an input of six. *)
Lemma public_decrypt_size_contract_witness :
  GFp_rsa_public_decrypt key17_n key17_e msg17 34 8192
    (start [x00; x00; x00; x00] [])
  = (Returned 0,
     with_error (start [x00; x00; x00; x00] []) RSA_R_OUTPUT_BUFFER_TOO_SMALL)
  /\ GFp_rsa_public_decrypt key17_n key17_e msg17_long 34 8192
       (start zeros5 [])
     = (Returned 0,
        with_error (start zeros5 []) RSA_R_DATA_LEN_NOT_EQUAL_TO_MOD_LEN).
Proof.
  split.
  - apply (@public_decrypt_size_contract Ref.engine key17_n key17_e msg17
             34 8192 (start [x00; x00; x00; x00] [])
             (bn_of_Z (be_value key17_n)) (bn_of_Z (be_value key17_e))
             eq_refl eq_refl).
    vm_compute. discriminate.
  - apply (@public_decrypt_size_contract Ref.engine key17_n key17_e
             msg17_long 34 8192 (start zeros5 [])
             (bn_of_Z (be_value key17_n)) (bn_of_Z (be_value key17_e))
             eq_refl eq_refl).
    + vm_compute. reflexivity.
    + vm_compute. discriminate.
Defined.

(** The claim C7 as it is stated fails for the private transform: the
    modulus of [key17] has five bytes, the buffer has six, and the call
    returns 1 with nothing on the error queue. *)
Lemma private_transform_accepts_longer_buffer :
  GFp_RSA_size key17 = 5
  /\ length msg17_long = 6%nat
  /\ fst (GFp_rsa_private_transform key17 (start msg17_long [12345]))
     = Returned 1
  /\ err_queue (snd (GFp_rsa_private_transform key17
                       (start msg17_long [12345]))) = []
  /\ buffer (snd (GFp_rsa_private_transform key17
                    (start msg17_long [12345])))
     = [x00; x00; x4c; xd0; x2b; x9b].
Proof.
  repeat split; vm_compute; reflexivity.
Qed.

(** * Further properties of the three functions *)

(** ** Error reporting, for every engine *)

Section Reporting.

Context {E : BN_ENGINE}.

(** The validator ends in one of three ways. *)
Lemma check_shape (n e : BIGNUM) (min_bits max_bits : Z) (w : world) :
  GFp_rsa_check_modulus_and_exponent n e min_bits max_bits w = (Next 1, w)
  \/ GFp_rsa_check_modulus_and_exponent n e min_bits max_bits w
     = (Assert_failed, w)
  \/ exists r,
       GFp_rsa_check_modulus_and_exponent n e min_bits max_bits w
       = (Next 0, with_error w r)
       /\ (r = RSA_R_KEY_SIZE_TOO_SMALL \/ r = RSA_R_MODULUS_TOO_LARGE
           \/ r = RSA_R_BAD_E_VALUE).
Proof.
  unfold GFp_rsa_check_modulus_and_exponent. unfold_flow.
  repeat match goal with
         | |- context [if ?c then _ else _] => destruct c
         end;
    cbn;
    first [ left; reflexivity
          | right; left; reflexivity
          | right; right; eexists; split; [reflexivity | tauto] ].
Qed.

(** The CRT exponentiation and the recombination leave the state alone
    when they fall through, and put [ERR_R_INTERNAL_ERROR] when they jump
    to [err]. *)
Lemma crt_exponentiate_shape (rsa : RSA) (base : BIGNUM) (w : world) :
  (exists m, crt_exponentiate rsa base w = (Next m, w))
  \/ crt_exponentiate rsa base w = (Assert_failed, w)
  \/ crt_exponentiate rsa base w
     = (Goto_err, with_error w ERR_R_INTERNAL_ERROR).
Proof.
  unfold crt_exponentiate. unfold_flow. cbv zeta.
  repeat (match goal with
          | |- context [if ?c then _ else _] => destruct c
          | |- context [match ?c with Some _ => _ | None => _ end] =>
              destruct c
          end; cbn);
    first [ left; eexists; reflexivity
          | right; left; reflexivity
          | right; right; reflexivity ].
Qed.

Lemma garner_shape (rsa : RSA) (mp mq : BIGNUM) (w : world) :
  (exists r, garner rsa mp mq w = (Next r, w))
  \/ garner rsa mp mq w = (Goto_err, with_error w ERR_R_INTERNAL_ERROR).
Proof.
  unfold garner. unfold_flow. cbv zeta.
  repeat (match goal with
          | |- context [match ?c with Some _ => _ | None => _ end] =>
              destruct c
          end; cbn);
    first [ left; eexists; reflexivity | right; reflexivity ].
Qed.

(** How the first part of the private transform ends. *)
Lemma blind_and_recombine_shape (rsa : RSA)
    (w : world) (f : flow (BIGNUM * BIGNUM)) (w1 : world) :
  blind_and_recombine rsa w = (f, w1) ->
  match f with
  | Next _ => err_queue w1 = err_queue w
  | Assert_failed => err_queue w1 = err_queue w
  | Goto_err =>
      (GFp_BN_bin2bn (buffer w) = None /\ w1 = w)
      \/ err_queue w1 = err_queue w ++ [RSA_R_DATA_TOO_LARGE_FOR_MODULUS]
      \/ err_queue w1 = err_queue w ++ [ERR_R_INTERNAL_ERROR]
  end.
Proof.
  unfold blind_and_recombine, blinding_convert. unfold_flow.
  destruct (GFp_BN_bin2bn (buffer w)) as [base|];
    [|intros H; inversion H; subst; left; split; reflexivity].
  destruct (0 <=? GFp_BN_ucmp base (N (mont_n rsa)));
    [intros H; inversion H; subst; right; left; reflexivity|].
  destruct (GFp_BN_BLINDING_convert base (blinding w) rsa (rng w))
    as [[c bl] rg].
  destruct c as [blinded|];
    [|intros H; inversion H; subst; right; right; reflexivity].
  match goal with
  | |- context [crt_exponentiate rsa blinded ?w0] =>
      destruct (crt_exponentiate_shape rsa blinded w0) as [[m Hc]|[Hc|Hc]];
        rewrite Hc;
        [| intros H; inversion H; subst; reflexivity
         | intros H; inversion H; subst; right; right; reflexivity];
        destruct (garner_shape rsa (fst m) (snd m) w0) as [[r Hg]|Hg];
        rewrite Hg; intros H; inversion H; subst;
        [reflexivity | right; right; reflexivity]
  end.
Qed.

(** X1: every call that returns 0 puts exactly one reason on the error
    queue, with one exception: the private transform puts none when the
    parsing of its input fails.  A call that returns 1, and a call that
    stops at an assertion, put none. *)
Theorem each_failure_reports_one_reason :
  (forall nb eb in_ min_bits max_bits w,
      match GFp_rsa_public_decrypt nb eb in_ min_bits max_bits w with
      | (Returned r, w') =>
          (r = 1 /\ err_queue w' = err_queue w)
          \/ (r = 0 /\ exists k, err_queue w' = err_queue w ++ [k])
      | (Aborted, w') => w' = w
      end)
  /\ (forall rsa w,
      match GFp_rsa_private_transform rsa w with
      | (Returned r, w') =>
          (r = 1 /\ err_queue w' = err_queue w)
          \/ (r = 0
              /\ ((GFp_BN_bin2bn (buffer w) = None /\ w' = w)
                  \/ err_queue w' = err_queue w
                                    ++ [RSA_R_DATA_TOO_LARGE_FOR_MODULUS]
                  \/ err_queue w' = err_queue w ++ [ERR_R_INTERNAL_ERROR]))
      | (Aborted, w') => err_queue w' = err_queue w
      end).
Proof.
  split.
  - intros nb eb in_ min_bits max_bits w. rewrite public_decrypt_cases.
    destruct (GFp_BN_bin2bn nb) as [n|]; [|cbn; right; eauto].
    destruct (GFp_BN_bin2bn eb) as [e|]; [|cbn; right; eauto].
    destruct (negb (Z.of_nat (length (buffer w)) =? GFp_BN_num_bytes n));
      [cbn; right; eauto|].
    destruct (negb (Z.of_nat (length in_) =? GFp_BN_num_bytes n));
      [cbn; right; eauto|].
    destruct (check_shape n e min_bits max_bits w)
      as [Hc|[Hc|[k [Hc _]]]]; rewrite Hc; cbn [Z.eqb];
      [| reflexivity | cbn; right; eauto].
    destruct (GFp_BN_bin2bn in_) as [f|]; [|cbn; right; eauto].
    destruct (0 <=? GFp_BN_ucmp f n); [cbn; right; eauto|].
    destruct (GFp_BN_mod_exp_mont_vartime f e n None) as [result|];
      [|cbn; right; eauto].
    destruct (fst (GFp_BN_bn2bin_padded (buffer w) result));
      [left; split; reflexivity | right; split; [reflexivity|]].
    exists ERR_R_INTERNAL_ERROR. reflexivity.
  - intros rsa w. rewrite private_transform_cases.
    destruct (blind_and_recombine rsa w) as [f w1] eqn:Hpre.
    apply blind_and_recombine_shape in Hpre.
    destruct f as [br| |]; [| right; split; [reflexivity | exact Hpre]
                            | exact Hpre].
    rewrite verify_and_release_cases.
    destruct (GFp_BN_mod_exp_mont_vartime _ _ _ _) as [vrfy|];
      [|right; split; [reflexivity|]; right; right;
        cbn [with_error err_queue]; now rewrite Hpre].
    destruct (vrfy_mismatch vrfy (fst br));
      [right; split; [reflexivity|]; right; right;
       cbn [with_error err_queue]; now rewrite Hpre|].
    destruct (GFp_BN_BLINDING_invert _ _ _) as [r'|];
      [|right; split; [reflexivity|]; right; right;
        cbn [with_error err_queue]; now rewrite Hpre].
    destruct (fst (GFp_BN_bn2bin_padded (buffer w1) r'));
      [left; split; [reflexivity | exact Hpre]|].
    right; split; [reflexivity|]; right; right.
    cbn [with_error written err_queue]. now rewrite Hpre.
Qed.

(** X2: the validator is monotone in the caller's bounds: a key accepted
    for [min_bits] and [max_bits] is accepted for every smaller minimum and
    larger maximum; and a maximum above 16384 acts as 16384. *)
Theorem check_bounds_monotone
    (n e : BIGNUM) (min_bits max_bits min_bits' max_bits' : Z) (w : world) :
  (min_bits' <= min_bits -> max_bits <= max_bits' ->
   GFp_rsa_check_modulus_and_exponent n e min_bits max_bits w = (Next 1, w) ->
   GFp_rsa_check_modulus_and_exponent n e min_bits' max_bits' w = (Next 1, w))
  /\ GFp_rsa_check_modulus_and_exponent n e min_bits max_bits w
     = GFp_rsa_check_modulus_and_exponent n e min_bits
         (Z.min max_bits 16384) w.
Proof.
  unfold GFp_rsa_check_modulus_and_exponent. unfold_flow.
  set (nb := GFp_BN_num_bits n). split.
  - intros Hmin Hmax.
    destruct (Z.ltb_spec nb min_bits) as [|H1]; [discriminate|].
    destruct (Z.ltb_spec (16 * 1024) nb) as [|H2]; [discriminate|].
    destruct (Z.ltb_spec max_bits nb) as [|H3]; [discriminate|].
    rewrite (proj2 (Z.ltb_ge nb min_bits')) by lia.
    rewrite (proj2 (Z.ltb_ge max_bits' nb)) by lia.
    cbn [orb]. trivial.
  - replace ((16 * 1024 <? nb) || (Z.min max_bits 16384 <? nb))
      with ((16 * 1024 <? nb) || (max_bits <? nb)); [reflexivity|].
    destruct (Z.ltb_spec (16 * 1024) nb); [reflexivity|]. cbn [orb].
    destruct (Z.ltb_spec max_bits nb);
      destruct (Z.ltb_spec (Z.min max_bits 16384) nb); trivial; lia.
Qed.

End Reporting.

(** X2 with the bit lengths of the public key of [key17]. *)
Lemma check_bounds_monotone_witness :
  GFp_rsa_check_modulus_and_exponent
    (bn_of_Z 17183539171) (bn_of_Z 65537) 0 100000 (start [] [])
  = (Next 1, start [] []).
Proof.
  destruct (@check_bounds_monotone Ref.engine (bn_of_Z 17183539171)
              (bn_of_Z 65537) 34 8192 0 100000 (start [] [])) as [H _].
  apply H; [lia | lia |]. vm_compute. reflexivity.
Defined.

(** ** The validator in terms of values *)

Lemma validator_pass_inv (n e : BIGNUM) (min_bits max_bits : Z) (w : world) :
  GFp_rsa_check_modulus_and_exponent n e min_bits max_bits w = (Next 1, w) ->
  first_violated
    (validator_checks (Ref.num_bits n) (Ref.num_bits e) (Z.odd (bn_val e))
       min_bits max_bits) = None.
Proof.
  rewrite check_cases. unfold validator_checks, first_violated.
  destruct (Z.ltb_spec (Ref.num_bits n) min_bits) as [|H1]; [discriminate|].
  destruct (Z.ltb_spec (16 * 1024) (Ref.num_bits n)) as [|H2];
    [discriminate|].
  destruct (Z.ltb_spec max_bits (Ref.num_bits n)) as [|H3]; [discriminate|].
  destruct (Z.ltb_spec (Ref.num_bits e) 2) as [|H4]; [discriminate|].
  destruct (Z.ltb_spec 33 (Ref.num_bits e)) as [|H5]; [discriminate|].
  destruct (Z.odd (bn_val e)); [|discriminate].
  destruct (Z.leb_spec (Ref.num_bits n) 33) as [|H6]; [discriminate|].
  intros _.
  rewrite (proj2 (Z.leb_le min_bits _)) by lia.
  rewrite (proj2 (Z.leb_le _ (Z.min max_bits 16384))) by lia.
  rewrite (proj2 (Z.leb_le 2 _)) by lia.
  rewrite (proj2 (Z.leb_le _ 33)) by lia.
  now rewrite (proj2 (Z.ltb_lt 33 _)) by lia.
Qed.

(** A bit length is at most [k] exactly when the value is below [2^k]. *)
Lemma num_bits_le_iff (b : BIGNUM) (k : Z) :
  0 <= k -> (Ref.num_bits b <= k <-> Z.abs (bn_val b) < 2 ^ k).
Proof.
  intros Hk. pose proof (num_bits_upper b) as Hu.
  pose proof (num_bits_nonneg b) as Hn. split.
  - intros H.
    assert (2 ^ Ref.num_bits b <= 2 ^ k) by (apply Z.pow_le_mono_r; lia).
    lia.
  - intros H. destruct (Z_le_gt_dec (Ref.num_bits b) k) as [|Hgt]; [assumption|].
    pose proof (num_bits_lower b ltac:(lia)) as Hl.
    assert (2 ^ k <= 2 ^ (Ref.num_bits b - 1))
      by (apply Z.pow_le_mono_r; lia).
    lia.
Qed.

(** A bit length is at least [k >= 1] exactly when the value is at least
    [2^(k-1)]. *)
Lemma num_bits_ge_iff (b : BIGNUM) (k : Z) :
  1 <= k -> (k <= Ref.num_bits b <-> 2 ^ (k - 1) <= Z.abs (bn_val b)).
Proof.
  intros Hk. pose proof (num_bits_le_iff b (k - 1) ltac:(lia)) as H. lia.
Qed.

(** X3: the validator in terms of values.  It accepts exactly the moduli
    with [2^33 <= n < 2^min(max_bits, 16384)] that have at least [min_bits]
    bits, with the odd exponents [3 <= e < 2^33]: the exponent 1 and every
    even exponent are rejected, whatever the modulus. *)
Theorem check_accepts_value_ranges
    (n e : BIGNUM) (min_bits max_bits : Z) (w : world) :
  GFp_rsa_check_modulus_and_exponent n e min_bits max_bits w = (Next 1, w)
  <-> (min_bits <= 0 \/ 2 ^ (min_bits - 1) <= Z.abs (bn_val n))
      /\ 2 ^ 33 <= Z.abs (bn_val n)
      /\ Z.abs (bn_val n) < 2 ^ Z.min max_bits 16384
      /\ 3 <= Z.abs (bn_val e) < 2 ^ 33
      /\ Z.odd (bn_val e) = true.
Proof.
  pose proof (num_bits_nonneg n) as Hnn.
  pose proof (num_bits_le_iff e 33 ltac:(lia)) as He33.
  pose proof (num_bits_ge_iff e 2 ltac:(lia)) as He2.
  pose proof (num_bits_ge_iff n 34 ltac:(lia)) as Hn34.
  change (2 ^ (2 - 1)) with 2 in He2. change (34 - 1) with 33 in Hn34.
  assert (Hodd3 : Z.odd (bn_val e) = true -> Z.abs (bn_val e) <> 2).
  { intros Ho H2. assert (Hc : bn_val e = 2 \/ bn_val e = -2) by lia.
    destruct Hc as [Hc|Hc]; rewrite Hc in Ho; discriminate. }
  split.
  - intros H. apply validator_pass_inv in H.
    unfold validator_checks, first_violated in H.
    destruct (Z.leb_spec min_bits (Ref.num_bits n)) as [H1|]; [|discriminate].
    destruct (Z.leb_spec (Ref.num_bits n) (Z.min max_bits 16384)) as [H2|];
      [|discriminate].
    destruct (Z.leb_spec 2 (Ref.num_bits e)) as [H3|]; [|discriminate].
    destruct (Z.leb_spec (Ref.num_bits e) 33) as [H4|]; [|discriminate].
    destruct (Z.odd (bn_val e)) eqn:H5; [|discriminate].
    destruct (Z.ltb_spec 33 (Ref.num_bits n)) as [H6|]; [|discriminate].
    pose proof (num_bits_le_iff n (Z.min max_bits 16384) ltac:(lia)) as Hmax.
    pose proof (Hodd3 eq_refl).
    repeat split; try lia.
    destruct (Z_le_gt_dec min_bits 0) as [|Hpos]; [left; assumption|].
    right. apply num_bits_ge_iff; lia.
  - intros [Hmin [Hlow [Hhigh [[He3 Hehi] Ho]]]].
    apply validator_pass. unfold validator_checks, first_violated.
    assert (Hcap : 0 <= Z.min max_bits 16384).
    { destruct (Z_le_gt_dec 0 (Z.min max_bits 16384)) as [|Hneg];
        [assumption|].
      rewrite Z.pow_neg_r in Hhigh by lia. lia. }
    pose proof (num_bits_le_iff n (Z.min max_bits 16384) Hcap) as Hmax.
    assert (H1 : min_bits <= Ref.num_bits n).
    { destruct Hmin as [|Hmin]; [lia|].
      destruct (Z_le_gt_dec min_bits 0); [lia|].
      apply num_bits_ge_iff; [lia | assumption]. }
    rewrite (proj2 (Z.leb_le min_bits _)) by lia.
    rewrite (proj2 (Z.leb_le _ (Z.min max_bits 16384))) by lia.
    rewrite (proj2 (Z.leb_le 2 _)) by lia.
    rewrite (proj2 (Z.leb_le _ 33)) by lia.
    rewrite Ho.
    now rewrite (proj2 (Z.ltb_lt 33 _)) by lia.
Qed.

(** ** The public transform, completely *)

Lemma ref_public_decrypt
    (nb eb in_ : list byte) (min_bits max_bits : Z) (w : world) :
  Z.of_nat (length (buffer w)) = Ref.num_bytes (bn_of_Z (be_value nb)) ->
  Z.of_nat (length in_) = Ref.num_bytes (bn_of_Z (be_value nb)) ->
  first_violated
    (validator_checks (Ref.num_bits (bn_of_Z (be_value nb)))
       (Ref.num_bits (bn_of_Z (be_value eb))) (Z.odd (be_value eb))
       min_bits max_bits) = None ->
  be_value in_ < be_value nb ->
  GFp_rsa_public_decrypt nb eb in_ min_bits max_bits w
  = (Returned 1,
     {| buffer := be_bytes (length (buffer w))
                    (be_value in_ ^ be_value eb mod be_value nb);
        blinding := blinding w; rng := rng w; err_queue := err_queue w |}).
Proof.
  intros Hout Hin Hpass Hlt.
  pose proof (be_value_range in_) as Hfr.
  set (n := be_value nb) in *. set (ev := be_value eb) in *.
  set (f := be_value in_) in *.
  pose proof (num_bytes_fits (bn_of_Z n)) as Hfit.
  rewrite bn_val_of_Z, <- Hout, Z.abs_eq in Hfit by lia.
  pose proof (Z.mod_pos_bound (f ^ ev) n ltac:(lia)) as Hres.
  rewrite public_decrypt_cases.
  cbn [GFp_BN_bin2bn GFp_BN_num_bytes GFp_BN_ucmp
       GFp_BN_mod_exp_mont_vartime GFp_BN_bn2bin_padded Ref.engine].
  unfold Ref.bin2bn. fold n ev f.
  rewrite (proj2 (Z.eqb_eq _ _) Hout), (proj2 (Z.eqb_eq _ _) Hin).
  cbn [negb].
  rewrite (validator_pass (bn_of_Z n) (bn_of_Z ev) min_bits max_bits w)
    by (rewrite bn_val_of_Z; exact Hpass).
  cbn [Z.eqb].
  rewrite ucmp_lt by (rewrite !bn_val_of_Z; lia).
  unfold Ref.mod_exp_mont_vartime, written.
  cbn [GFp_BN_bn2bin_padded Ref.engine].
  rewrite !bn_val_of_Z, Zpow_mod_correct by lia.
  rewrite ref_bn2bin_padded_fits by lia.
  reflexivity.
Qed.

Lemma ref_public_decrypt_inv
    (nb eb in_ : list byte) (min_bits max_bits : Z) (w : world) :
  fst (GFp_rsa_public_decrypt nb eb in_ min_bits max_bits w) = Returned 1 ->
  Z.of_nat (length (buffer w)) = Ref.num_bytes (bn_of_Z (be_value nb))
  /\ Z.of_nat (length in_) = Ref.num_bytes (bn_of_Z (be_value nb))
  /\ first_violated
       (validator_checks (Ref.num_bits (bn_of_Z (be_value nb)))
          (Ref.num_bits (bn_of_Z (be_value eb))) (Z.odd (be_value eb))
          min_bits max_bits) = None
  /\ be_value in_ < be_value nb.
Proof.
  rewrite public_decrypt_cases.
  cbn [GFp_BN_bin2bn GFp_BN_num_bytes GFp_BN_ucmp Ref.engine].
  unfold Ref.bin2bn.
  destruct (Z.eqb_spec (Z.of_nat (length (buffer w)))
              (Ref.num_bytes (bn_of_Z (be_value nb)))) as [Hout|];
    [|discriminate].
  destruct (Z.eqb_spec (Z.of_nat (length in_))
              (Ref.num_bytes (bn_of_Z (be_value nb)))) as [Hin|];
    [|discriminate].
  cbn [negb].
  destruct (check_result (bn_of_Z (be_value nb)) (bn_of_Z (be_value eb))
              min_bits max_bits w) as [[Hc _]|[r Hc]]; rewrite Hc;
    [|discriminate].
  cbn [Z.eqb]. apply validator_pass_inv in Hc.
  rewrite bn_val_of_Z in Hc.
  destruct (Z.leb_spec 0 (Ref.ucmp (bn_of_Z (be_value in_))
                            (bn_of_Z (be_value nb)))) as [|Hcmp];
    [discriminate|].
  intros _. repeat split; trivial.
  destruct (Z_lt_le_dec (be_value in_) (be_value nb)) as [|Hge];
    [assumption|].
  pose proof (be_value_range nb). pose proof (be_value_range in_).
  pose proof (ucmp_ge (bn_of_Z (be_value in_)) (bn_of_Z (be_value nb)))
    as Hu.
  rewrite !bn_val_of_Z in Hu. apply Z.leb_le in Hu; lia.
Qed.

(** X4: the public transform returns 1 exactly when both buffers have the
    modulus byte length, the key passes the validator and the input is
    below the modulus; in particular the final conversion never fails and
    the call never stops at the validator's assertion. *)
Theorem public_decrypt_success_iff
    (nb eb in_ : list byte) (min_bits max_bits : Z) (w : world) :
  (fst (GFp_rsa_public_decrypt nb eb in_ min_bits max_bits w) = Returned 1
   <-> Z.of_nat (length (buffer w)) = Ref.num_bytes (bn_of_Z (be_value nb))
       /\ Z.of_nat (length in_) = Ref.num_bytes (bn_of_Z (be_value nb))
       /\ first_violated
            (validator_checks (Ref.num_bits (bn_of_Z (be_value nb)))
               (Ref.num_bits (bn_of_Z (be_value eb))) (Z.odd (be_value eb))
               min_bits max_bits) = None
       /\ be_value in_ < be_value nb)
  /\ fst (GFp_rsa_public_decrypt nb eb in_ min_bits max_bits w) <> Aborted.
Proof.
  split; [split|].
  - apply ref_public_decrypt_inv.
  - intros [Hout [Hin [Hpass Hlt]]].
    now rewrite (ref_public_decrypt nb eb in_ min_bits max_bits w).
  - rewrite public_decrypt_cases.
    cbn [GFp_BN_bin2bn GFp_BN_num_bytes Ref.engine]. unfold Ref.bin2bn.
    destruct (negb (Z.of_nat (length (buffer w)) =? _)); [discriminate|].
    destruct (negb (Z.of_nat (length in_) =? _)); [discriminate|].
    destruct (check_result (bn_of_Z (be_value nb)) (bn_of_Z (be_value eb))
                min_bits max_bits w) as [[Hc _]|[r Hc]]; rewrite Hc;
      [|discriminate].
    cbn [Z.eqb]. destruct (0 <=? _); [discriminate|].
    cbn [GFp_BN_mod_exp_mont_vartime Ref.engine].
    unfold Ref.mod_exp_mont_vartime.
    match goal with
    | |- context [if ?c then _ else _] => destruct c
    end; discriminate.
Qed.

(** X4 at the public key of [key17]. *)
Lemma public_decrypt_success_iff_witness :
  fst (GFp_rsa_public_decrypt key17_n key17_e msg17 34 8192
         (start zeros5 [])) = Returned 1.
Proof.
  apply (public_decrypt_success_iff key17_n key17_e msg17 34 8192
           (start zeros5 [])).
  repeat split; vm_compute; reflexivity.
Defined.

(** ** What a released result satisfies, for every key object *)

Lemma ucmp_neg_lt (a b : BIGNUM) :
  (0 <=? Ref.ucmp a b) = false -> Z.abs (bn_val a) < Z.abs (bn_val b).
Proof.
  unfold Ref.ucmp.
  destruct (Z.compare_spec (Z.abs (bn_val a)) (Z.abs (bn_val b)));
    cbn; intros Hc; try discriminate; assumption.
Qed.

(** What the first part of the private transform has done when it falls
    through. *)
Lemma ref_blind_and_recombine_inv
    (rsa : RSA) (w w1 : world) (base r : BIGNUM) :
  blind_and_recombine rsa w = (Next (base, r), w1) ->
  be_value (buffer w) < Z.abs (bn_val (N (mont_n rsa)))
  /\ exists x rest,
       Ref.draw_unit (bn_val (N (mont_n rsa))) (rng w) = Some (x, rest)
       /\ base = bn_of_Z ((be_value (buffer w)
                           * Zpow_mod x (bn_val (e rsa))
                               (bn_val (N (mont_n rsa))))
                          mod bn_val (N (mont_n rsa)))
       /\ w1 = {| buffer := buffer w;
                  blinding :=
                    {| A := bn_of_Z (Zpow_mod x (bn_val (e rsa))
                                       (bn_val (N (mont_n rsa))));
                       Ai := bn_of_Z (Z.invmod x (bn_val (N (mont_n rsa)))) |};
                  rng := rest;
                  err_queue := err_queue w |}.
Proof.
  unfold blind_and_recombine, blinding_convert. unfold_flow.
  cbn [GFp_BN_bin2bn GFp_BN_ucmp GFp_BN_BLINDING_convert Ref.engine].
  unfold Ref.bin2bn, Ref.BLINDING_convert.
  destruct (0 <=? Ref.ucmp _ _) eqn:Hcmp; [discriminate|].
  apply ucmp_neg_lt in Hcmp. rewrite bn_val_of_Z in Hcmp.
  pose proof (be_value_range (buffer w)) as Hm.
  rewrite Z.abs_eq in Hcmp by lia.
  destruct (Ref.draw_unit _ _) as [[x rest]|]; [|discriminate].
  rewrite bn_val_of_Z.
  match goal with
  | |- context [crt_exponentiate rsa ?b ?w0] =>
      destruct (crt_exponentiate_shape rsa b w0) as [[m Hc]|[Hc|Hc]];
        rewrite Hc; [|discriminate|discriminate];
        destruct (garner_shape rsa (fst m) (snd m) w0) as [[r0 Hg]|Hg];
        rewrite Hg; [|discriminate]
  end.
  intros H. inversion H; subst. split; [exact Hcmp|].
  exists x, rest. repeat split.
Qed.

(** If [rv^ev] is the blinded message, the unblinded [rv] raised to [ev]
    is the message. *)
Lemma unblind_any (n ev m x rv : Z) :
  2 <= n -> 0 <= ev -> Z.coprime x n -> 0 <= m < n ->
  rv ^ ev mod n = (m * (x ^ ev mod n)) mod n ->
  ((rv * Z.invmod x n) mod n) ^ ev mod n = m.
Proof.
  intros Hn Hev Hx Hm Heq.
  assert (E : ((x ^ ev mod n) * Z.invmod x n ^ ev) mod n = 1 mod n).
  { rewrite Z.mul_mod_idemp_l, <- Z.pow_mul_l, <- Z.mod_pow_l by lia.
    rewrite (Z.mul_comm x), (Z.invmod_coprime x n) by trivial.
    now rewrite Z.pow_1_l by lia. }
  rewrite Z.mod_pow_l, Z.pow_mul_l.
  rewrite <- Z.mul_mod_idemp_l, Heq by lia.
  rewrite Z.mul_mod_idemp_l, <- Z.mul_assoc by lia.
  rewrite <- Z.mul_mod_idemp_r, E by lia.
  rewrite Z.mul_mod_idemp_r, Z.mul_1_r by lia. now apply Z.mod_small.
Qed.

(** X5: whatever the key object holds (its primes, CRT exponents and
    constants need not be consistent), a result the private transform
    releases verifies under the public key: when the call returns 1, the
    output has the length of the input, is below [n], and raised to [e]
    modulo [n] it is the input. *)
Theorem released_signature_verifies (rsa : RSA) (w w' : world) :
  2 <= bn_val (N (mont_n rsa)) ->
  0 <= bn_val (e rsa) ->
  GFp_rsa_private_transform rsa w = (Returned 1, w') ->
  length (buffer w') = length (buffer w)
  /\ be_value (buffer w') < bn_val (N (mont_n rsa))
  /\ be_value (buffer w') ^ bn_val (e rsa) mod bn_val (N (mont_n rsa))
     = be_value (buffer w).
Proof.
  intros Hn He Hrun. rewrite private_transform_cases in Hrun.
  destruct (blind_and_recombine rsa w) as [[[base r]| |] w1] eqn:Hpre;
    try discriminate.
  apply ref_blind_and_recombine_inv in Hpre.
  destruct Hpre as [Hm [x [rest [Hdraw [Hbase Hw1]]]]].
  set (n := bn_val (N (mont_n rsa))) in *.
  set (ev := bn_val (e rsa)) in *.
  set (m := be_value (buffer w)) in *.
  rewrite Z.abs_eq in Hm by lia.
  pose proof (be_value_range (buffer w)) as Hmr. fold m in Hmr.
  destruct (draw_unit_spec n (rng w) x rest ltac:(lia) Hdraw) as [Hcop Hx].
  rewrite Zpow_mod_correct in Hbase, Hw1 by lia.
  cbn [fst snd] in Hrun. rewrite verify_and_release_cases in Hrun.
  cbn [GFp_BN_mod_exp_mont_vartime GFp_BN_BLINDING_invert
       GFp_BN_bn2bin_padded Ref.engine] in Hrun.
  unfold Ref.mod_exp_mont_vartime, Ref.BLINDING_invert, written in Hrun.
  cbn [GFp_BN_bn2bin_padded Ref.engine] in Hrun.
  fold n ev in Hrun. rewrite Zpow_mod_correct in Hrun by lia.
  pose proof (Z.mod_pos_bound (bn_val r ^ ev) n ltac:(lia)) as Hv.
  pose proof (Z.mod_pos_bound (m * (x ^ ev mod n)) n ltac:(lia)) as Hb.
  destruct (vrfy_mismatch (bn_of_Z (bn_val r ^ ev mod n)) base) eqn:Hmis;
    [discriminate|].
  assert (Hcheck : bn_val r ^ ev mod n = (m * (x ^ ev mod n)) mod n).
  { destruct (Z.eq_dec (bn_val r ^ ev mod n) ((m * (x ^ ev mod n)) mod n))
      as [|Hne]; [assumption|].
    rewrite Hbase, ref_vrfy_mismatch_neq in Hmis by (trivial; lia).
    discriminate. }
  rewrite Hw1 in Hrun. cbn [blinding Ai buffer] in Hrun.
  rewrite bn_val_of_Z in Hrun.
  set (s := (bn_val r * Z.invmod x n) mod n) in *.
  pose proof (Z.mod_pos_bound (bn_val r * Z.invmod x n) n ltac:(lia)) as Hs.
  fold s in Hs.
  unfold Ref.bn2bin_padded in Hrun. rewrite bn_val_of_Z in Hrun.
  rewrite Z.abs_eq in Hrun by lia.
  destruct (Z.ltb_spec s (256 ^ Z.of_nat (length (buffer w)))) as [Hfit|];
    cbn [fst snd] in Hrun; [|discriminate].
  inversion Hrun; subst w'. cbn [buffer].
  rewrite be_bytes_length, be_bytes_inj_value by lia.
  repeat split; [lia|].
  unfold s. apply unblind_any; trivial; lia.
Qed.

Lemma key_5_3_ok_valid : valid_key key_5_3_ok 5 3 3.
Proof.
  split; [exact key_5_3_ok_crt | split; vm_compute; congruence | ..];
    vm_compute; reflexivity.
Qed.

(** X5 at [p = 5], [q = 3], [e = 3] and the block [07]. *)
Lemma released_signature_verifies_witness :
  be_value [x0d] ^ bn_val (e key_5_3_ok) mod bn_val (N (mont_n key_5_3_ok))
  = be_value [x07].
Proof.
  apply (released_signature_verifies key_5_3_ok (start [x07] [2])
           {| buffer := [x0d];
              blinding := {| A := bn_of_Z 8; Ai := bn_of_Z 8 |};
              rng := []; err_queue := [] |}).
  - vm_compute. discriminate.
  - vm_compute. discriminate.
  - vm_compute. reflexivity.
Defined.

(** X6 at [p = 5], [q = 3], [dd = 3]: for the blinded base 7 the correct
    result is 13; the wrong result 1 fails the check. *)
Lemma fault_detected_witness :
  at_err_label 1 (verify_and_release key_5_3_ok (bn_of_Z 7) (bn_of_Z 1))
    (start [x07] [])
  = (Returned 0, with_error (start [x07] []) ERR_R_INTERNAL_ERROR).
Proof.
  apply (fault_detected key_5_3_ok 5 3 3 7 1 (start [x07] [])
           key_5_3_ok_valid); [lia | lia |].
  vm_compute. discriminate.
Defined.

(** ** The CRT path, for every pair of exponents *)

Lemma garner_formula_residues (p q mp mq iq : Z) :
  1 < q -> q < p -> 0 <= mq < q -> (iq * q) mod p = 1 ->
  0 <= garner_formula mp mq q iq p < p * q
  /\ garner_formula mp mq q iq p mod p = mp mod p
  /\ garner_formula mp mq q iq p mod q = mq.
Proof.
  intros Hq Hlt Hmq Hiq. unfold garner_formula.
  set (h := ((mp - mq) * iq) mod p).
  assert (Hh : 0 <= h < p) by (apply Z.mod_pos_bound; lia).
  split; [nia|]. split.
  - unfold h.
    rewrite <- Z.add_mod_idemp_r, Z.mul_mod_idemp_r by lia.
    replace (q * ((mp - mq) * iq)) with ((mp - mq) * (iq * q)) by ring.
    rewrite <- Z.mul_mod_idemp_r, Hiq, Z.mul_1_r by lia.
    rewrite Z.add_mod_idemp_r by lia. f_equal. lia.
  - replace (mq + q * h) with (mq + h * q) by ring.
    rewrite Z.mod_add by lia. apply Z.mod_small. lia.
Qed.

(** X7: for a key object with consistent CRT material (odd primes
    [q < p < q^2]) and any CRT exponents, the CRT exponentiation followed
    by Garner's recombination falls through without touching the state,
    and its result [r] is the one integer below [n] with
    [r = base^dmp1 (mod p)] and [r = base^dmq1 (mod q)]: no reduction
    modulo [n] is needed after the last multiplication. *)
Theorem crt_path_residues
    (rsa : RSA) (p q : Z) (base : BIGNUM) (w : world) :
  crt_key rsa p q -> 2 < q -> p < q * q ->
  0 <= bn_val base < p * q ->
  exists mp mq r,
    crt_exponentiate rsa base w = (Next (mp, mq), w)
    /\ garner rsa mp mq w = (Next r, w)
    /\ 0 <= bn_val r < p * q
    /\ bn_val r mod p = bn_val base ^ bn_val (dmp1 rsa) mod p
    /\ bn_val r mod q = bn_val base ^ bn_val (dmq1 rsa) mod q.
Proof.
  intros K Hq2 Hbal Hb.
  pose proof (ck_prime_p _ _ _ K) as Hp. pose proof (ck_prime_q _ _ _ K) as Hq.
  pose proof (ck_lt _ _ _ K) as Hlt.
  set (mp := (bn_val base mod p) ^ bn_val (dmp1 rsa) mod p).
  set (mq := (bn_val base mod q) ^ bn_val (dmq1 rsa) mod q).
  assert (Hmp : 0 <= mp < p) by (apply Z.mod_pos_bound; lia).
  assert (Hmq : 0 <= mq < q) by (apply Z.mod_pos_bound; lia).
  exists (bn_of_Z mp), (bn_of_Z mq),
    (bn_of_Z (garner_formula mp mq q (Z.invmod q p) p)).
  split; [now apply ref_crt_exponentiate|].
  split.
  { rewrite (ref_garner rsa p q) by (trivial; rewrite bn_val_of_Z; lia).
    now rewrite !bn_val_of_Z. }
  rewrite bn_val_of_Z.
  destruct (garner_formula_residues p q mp mq (Z.invmod q p))
    as [Hr [Hrp Hrq]]; trivial; try lia.
  { now apply invmod_prime_lt. }
  split; [exact Hr|]. split.
  - rewrite Hrp. unfold mp. rewrite Z.mod_mod by lia. apply Z.mod_pow_l.
  - rewrite Hrq. unfold mq. apply Z.mod_pow_l.
Qed.

(** X7 at [key17] and the base 12345678901. *)
Lemma crt_path_residues_witness :
  exists mp mq r,
    crt_exponentiate key17 (bn_of_Z 12345678901) (start [] [])
    = (Next (mp, mq), start [] [])
    /\ garner key17 mp mq (start [] []) = (Next r, start [] [])
    /\ 0 <= bn_val r < 131101 * 131071.
Proof.
  destruct (crt_path_residues key17 131101 131071 (bn_of_Z 12345678901)
              (start [] []) key17_crt) as [mp [mq [r [H1 [H2 [H3 _]]]]]].
  - lia.
  - lia.
  - vm_compute. split; congruence.
  - exists mp, mq, r. repeat split; trivial; apply H3.
Defined.

(** ** The private transform of a valid key, continued *)

(** X8: the blinding does not show in the result: for a valid key and a
    block below the modulus, two calls with different randomness return 1
    with the same bytes in the buffer. *)
Theorem private_transform_independent_of_blinding
    (rsa : RSA) (p q dd x1 x2 : Z) (rest1 rest2 : RAND) (w1 w2 : world) :
  valid_key rsa p q dd ->
  buffer w1 = buffer w2 ->
  be_value (buffer w1) < p * q ->
  Z.of_nat (length (buffer w1)) = GFp_RSA_size rsa ->
  Ref.draw_unit (p * q) (rng w1) = Some (x1, rest1) ->
  Ref.draw_unit (p * q) (rng w2) = Some (x2, rest2) ->
  fst (GFp_rsa_private_transform rsa w1) = Returned 1
  /\ fst (GFp_rsa_private_transform rsa w2) = Returned 1
  /\ buffer (snd (GFp_rsa_private_transform rsa w1))
     = buffer (snd (GFp_rsa_private_transform rsa w2)).
Proof.
  intros V Hbuf Hm Hlen Hd1 Hd2.
  rewrite (ref_private_transform rsa p q dd x1 rest1 w1 V Hm Hd1 Hlen).
  rewrite Hbuf in Hm, Hlen.
  rewrite (ref_private_transform rsa p q dd x2 rest2 w2 V Hm Hd2 Hlen).
  cbn [fst snd buffer]. now rewrite Hbuf.
Qed.

(** X8 at [key17] with the blinding values 12345 and 777. *)
Lemma private_transform_independent_of_blinding_witness :
  buffer (snd (GFp_rsa_private_transform key17 (start msg17 [12345])))
  = buffer (snd (GFp_rsa_private_transform key17 (start msg17 [777]))).
Proof.
  apply (private_transform_independent_of_blinding key17 131101 131071
           495673973 12345 777 [] [] (start msg17 [12345])
           (start msg17 [777]) key17_valid);
    vm_compute; reflexivity.
Defined.

(** X9: the round trip in the other direction.  For a valid key and a
    block [c] below the modulus in a buffer of the modulus byte length,
    the public transform succeeds, and the private transform of its output
    returns 1 with [c] in the buffer. *)
Theorem public_then_private_round_trip
    (rsa : RSA) (p q dd : Z) (nb eb c : list byte) (min_bits max_bits : Z)
    (x : Z) (rest : RAND) (w : world) :
  valid_key rsa p q dd ->
  be_value c < p * q ->
  Z.of_nat (length c) = GFp_RSA_size rsa ->
  length (buffer w) = length c ->
  Ref.draw_unit (p * q) (rng w) = Some (x, rest) ->
  be_value nb = p * q ->
  be_value eb = bn_val (e rsa) ->
  first_violated
    (validator_checks (Ref.num_bits (N (mont_n rsa))) (Ref.num_bits (e rsa))
       (Z.odd (bn_val (e rsa))) min_bits max_bits) = None ->
  exists w1 w2,
    GFp_rsa_public_decrypt nb eb c min_bits max_bits w = (Returned 1, w1)
    /\ be_value (buffer w1) = be_value c ^ bn_val (e rsa) mod (p * q)
    /\ GFp_rsa_private_transform rsa w1 = (Returned 1, w2)
    /\ buffer w2 = c.
Proof.
  intros V Hc Hlen Hout Hdraw Hnb Heb Hpass.
  pose proof V as [K X Hq2 Hbal Hev Hed].
  pose proof (ck_prime_p _ _ _ K) as Hp. pose proof (ck_prime_q _ _ _ K) as Hq.
  pose proof (ck_lt _ _ _ K) as Hlt. pose proof (ck_n _ _ _ K) as Hn.
  pose proof (prime_gt_1 _ Hq) as Hq1.
  destruct X as [Hd _ _].
  pose proof (be_value_range c) as Hcr.
  unfold GFp_RSA_size in Hlen. cbn [GFp_BN_num_bytes Ref.engine] in Hlen.
  assert (Hvaln : bn_val (bn_of_Z (be_value nb)) = bn_val (N (mont_n rsa)))
    by (rewrite bn_val_of_Z, Hnb; symmetry; exact Hn).
  assert (Hvale : bn_val (bn_of_Z (be_value eb)) = bn_val (e rsa))
    by (rewrite bn_val_of_Z; exact Heb).
  assert (Hnpos : 0 < p * q) by nia.
  pose proof (Z.mod_pos_bound (be_value c ^ bn_val (e rsa)) (p * q) Hnpos)
    as Hs.
  pose proof (num_bytes_fits (N (mont_n rsa))) as Hfit.
  rewrite Hn, <- Hlen, Z.abs_eq in Hfit by lia.
  eexists. eexists. split.
  { apply ref_public_decrypt.
    - now rewrite (num_bytes_val _ _ Hvaln), Hout.
    - now rewrite (num_bytes_val _ _ Hvaln).
    - rewrite (num_bits_val _ _ Hvaln), (num_bits_val _ _ Hvale), Heb.
      exact Hpass.
    - rewrite Hnb. exact Hc. }
  cbn [buffer]. rewrite Hnb, Heb, Hout.
  rewrite be_bytes_inj_value by lia.
  split; [reflexivity|]. split.
  { apply (ref_private_transform rsa p q dd x rest); cbn [buffer rng];
      trivial.
    - rewrite be_bytes_inj_value by lia. lia.
    - now rewrite be_bytes_length. }
  cbn [buffer]. rewrite be_bytes_length, be_bytes_inj_value by lia.
  rewrite Z.mod_pow_l, <- Z.pow_mul_r by lia.
  rewrite (rsa_identity p q (be_value c) (bn_val (e rsa)) dd)
    by (trivial; nia).
  rewrite Z.mod_small by lia. apply be_bytes_value.
Qed.

(** X9 at [key17] and the block [01 23 45 67 89]. *)
Lemma public_then_private_round_trip_witness :
  exists w1 w2,
    GFp_rsa_public_decrypt key17_n key17_e msg17 34 8192
      (start zeros5 [12345]) = (Returned 1, w1)
    /\ GFp_rsa_private_transform key17 w1 = (Returned 1, w2)
    /\ buffer w2 = msg17.
Proof.
  assert (Hc : be_value msg17 < 131101 * 131071)
    by (vm_compute; reflexivity).
  assert (Hlen : Z.of_nat (length msg17) = GFp_RSA_size key17)
    by (vm_compute; reflexivity).
  assert (Hdraw : Ref.draw_unit (131101 * 131071)
                    (rng (start zeros5 [12345])) = Some (12345, []))
    by (vm_compute; reflexivity).
  assert (Hnb : be_value key17_n = 131101 * 131071)
    by (vm_compute; reflexivity).
  assert (Heb : be_value key17_e = bn_val (e key17))
    by (vm_compute; reflexivity).
  assert (Hpass : first_violated
                    (validator_checks (Ref.num_bits (N (mont_n key17)))
                       (Ref.num_bits (e key17)) (Z.odd (bn_val (e key17)))
                       34 8192) = None)
    by (vm_compute; reflexivity).
  destruct (public_then_private_round_trip key17 131101 131071 495673973
              key17_n key17_e msg17 34 8192 12345 [] (start zeros5 [12345])
              key17_valid Hc Hlen eq_refl Hdraw Hnb Heb Hpass)
    as [w1 [w2 [H1 [_ [H2 H3]]]]].
  exists w1, w2. auto.
Defined.

(** ** The assertion and the final conversion of the private transform *)

(** The CRT exponentiation stops at its assertion exactly when the
    comparison of [q] with [p] is not negative, for every engine. *)
Lemma crt_exponentiate_assert_iff {E : BN_ENGINE}
    (rsa : RSA) (base : BIGNUM) (w : world) :
  fst (crt_exponentiate rsa base w) = Assert_failed
  <-> (GFp_BN_cmp (N (mont_q rsa)) (N (mont_p rsa)) <? 0) = false.
Proof.
  unfold crt_exponentiate. unfold_flow. cbv zeta.
  destruct (GFp_BN_cmp (N (mont_q rsa)) (N (mont_p rsa)) <? 0);
    [|split; reflexivity].
  split; [|discriminate].
  repeat (match goal with
          | |- context [match ?c with Some _ => _ | None => _ end] =>
              destruct c
          end; cbn);
    discriminate.
Qed.

Lemma cmp_ge_iff (a b : BIGNUM) :
  (Ref.cmp a b <? 0) = false <-> bn_val b <= bn_val a.
Proof.
  unfold Ref.cmp.
  destruct (Z.compare_spec (bn_val a) (bn_val b)); cbn;
    split; intros; try discriminate; try reflexivity; lia.
Qed.

(** X10: the private transform stops at its assertion exactly when the
    input is below the modulus, the blinding succeeds and the key object
    does not have [q < p]; it has then written nothing and reported
    nothing. *)
Theorem private_transform_aborts_iff (rsa : RSA) (w : world) :
  (fst (GFp_rsa_private_transform rsa w) = Aborted
   <-> be_value (buffer w) < Z.abs (bn_val (N (mont_n rsa)))
       /\ (exists x rest,
              Ref.draw_unit (bn_val (N (mont_n rsa))) (rng w)
              = Some (x, rest))
       /\ bn_val (N (mont_p rsa)) <= bn_val (N (mont_q rsa)))
  /\ (fst (GFp_rsa_private_transform rsa w) = Aborted ->
      buffer (snd (GFp_rsa_private_transform rsa w)) = buffer w
      /\ err_queue (snd (GFp_rsa_private_transform rsa w)) = err_queue w).
Proof.
  assert (Hrel : forall br w1,
             fst (at_err_label 1 (verify_and_release rsa (fst br) (snd br)) w1)
             <> Aborted).
  { intros br w1. rewrite verify_and_release_cases.
    repeat match goal with
           | |- context [match ?c with _ => _ end] => destruct c
           end; discriminate. }
  split.
  - rewrite private_transform_cases.
    unfold blind_and_recombine, blinding_convert. unfold_flow.
    cbn [GFp_BN_bin2bn GFp_BN_ucmp GFp_BN_BLINDING_convert Ref.engine].
    unfold Ref.bin2bn, Ref.BLINDING_convert.
    pose proof (be_value_range (buffer w)) as Hm.
    destruct (0 <=? Ref.ucmp _ _) eqn:Hcmp.
    { split; [discriminate|]. intros [Hlt _].
      pose proof (ucmp_lt (bn_of_Z (be_value (buffer w))) (N (mont_n rsa)))
        as Hu.
      rewrite bn_val_of_Z, Z.abs_eq in Hu by lia.
      rewrite (Hu Hlt) in Hcmp. discriminate. }
    apply ucmp_neg_lt in Hcmp. rewrite bn_val_of_Z, Z.abs_eq in Hcmp by lia.
    destruct (Ref.draw_unit _ _) as [[x rest]|];
      [|split; [discriminate | intros [_ [[x [rest Hd]] _]]; discriminate]].
    match goal with
    | |- context [crt_exponentiate rsa ?b ?w0] =>
        pose proof (crt_exponentiate_assert_iff rsa b w0) as Hassert;
        destruct (crt_exponentiate_shape rsa b w0) as [[m Hc]|[Hc|Hc]];
          rewrite Hc in *; cbn [fst] in Hassert;
          [destruct (garner_shape rsa (fst m) (snd m) w0) as [[r0 Hg]|Hg];
           rewrite Hg | |]
    end.
    + split; [intros H; now apply Hrel in H|].
      intros [_ [_ Hpq]]. apply cmp_ge_iff in Hpq.
      apply Hassert in Hpq. discriminate.
    + split; [discriminate|].
      intros [_ [_ Hpq]]. apply cmp_ge_iff in Hpq.
      apply Hassert in Hpq. discriminate.
    + split; [|reflexivity]. intros _.
      split; [exact Hcmp|]. split; [eauto|].
      apply cmp_ge_iff. now apply Hassert.
    + split; [discriminate|].
      intros [_ [_ Hpq]]. apply cmp_ge_iff in Hpq.
      apply Hassert in Hpq. discriminate.
  - rewrite private_transform_cases.
    destruct (blind_and_recombine rsa w) as [[br| |] w1] eqn:Hpre.
    + intros H. now apply Hrel in H.
    + discriminate.
    + intros _. cbn [snd]. split.
      * now apply blind_and_recombine_buffer in Hpre.
      * now apply blind_and_recombine_shape in Hpre.
Qed.

(** X10 at [key17_swapped]. *)
Lemma private_transform_aborts_iff_witness :
  fst (GFp_rsa_private_transform key17_swapped (start msg17 [12345]))
  = Aborted
  /\ buffer (snd (GFp_rsa_private_transform key17_swapped
                    (start msg17 [12345]))) = msg17.
Proof.
  destruct (private_transform_aborts_iff key17_swapped
              (start msg17 [12345])) as [Hiff Hframe].
  assert (Habort : fst (GFp_rsa_private_transform key17_swapped
                          (start msg17 [12345])) = Aborted).
  { apply Hiff. split; [vm_compute; reflexivity|].
    split; [exists 12345, []; vm_compute; reflexivity|].
    vm_compute. discriminate. }
  split; [exact Habort | apply (Hframe Habort)].
Defined.

(** X11: with a buffer of [GFp_RSA_size] bytes, the second part of the
    private transform can fail only at the fault check: once the first
    part has produced the blinded base and [r], the call returns 1 exactly
    when the check value matches the blinded base.  The unblinding and the
    final conversion do not fail, since the unblinded result is below
    [n]. *)
Theorem release_fails_only_at_fault_check
    (rsa : RSA) (w w1 : world) (base r : BIGNUM) :
  0 < bn_val (N (mont_n rsa)) ->
  Z.of_nat (length (buffer w)) = GFp_RSA_size rsa ->
  blind_and_recombine rsa w = (Next (base, r), w1) ->
  (fst (GFp_rsa_private_transform rsa w) = Returned 1
   <-> exists vrfy,
         GFp_BN_mod_exp_mont_vartime r (e rsa) (N (mont_n rsa))
           (Some (mont_n rsa)) = Some vrfy
         /\ vrfy_mismatch vrfy base = false).
Proof.
  intros Hn Hlen Hpre.
  pose proof (blind_and_recombine_buffer _ _ _ _ Hpre) as Hbuf.
  rewrite private_transform_cases, Hpre. cbn [fst snd].
  rewrite verify_and_release_cases.
  cbn [GFp_BN_mod_exp_mont_vartime GFp_BN_BLINDING_invert
       GFp_BN_bn2bin_padded Ref.engine].
  unfold Ref.mod_exp_mont_vartime, Ref.BLINDING_invert.
  set (vrfy := bn_of_Z (Zpow_mod (bn_val r) (bn_val (e rsa))
                          (bn_val (N (mont_n rsa))))).
  destruct (vrfy_mismatch vrfy base) eqn:Hmis.
  - split; [discriminate|].
    intros [v [Hv Hf]]. inversion Hv; subst v. congruence.
  - split; [intros _; exists vrfy; split; [reflexivity | exact Hmis]|].
    intros _.
    set (s := (bn_val r * bn_val (Ai (blinding w1)))
              mod bn_val (N (mont_n rsa))).
    pose proof (Z.mod_pos_bound (bn_val r * bn_val (Ai (blinding w1)))
                  (bn_val (N (mont_n rsa))) Hn) as Hs.
    fold s in Hs.
    pose proof (num_bytes_fits (N (mont_n rsa))) as Hfit.
    unfold GFp_RSA_size in Hlen. cbn [GFp_BN_num_bytes Ref.engine] in Hlen.
    rewrite <- Hlen, <- Hbuf, Z.abs_eq in Hfit by lia.
    rewrite ref_bn2bin_padded_fits by lia.
    reflexivity.
Qed.

(** X11 at [key17] and the message [01 23 45 67 89]. *)
Lemma release_fails_only_at_fault_check_witness :
  fst (GFp_rsa_private_transform key17 (start msg17 [12345])) = Returned 1.
Proof.
  eapply (release_fails_only_at_fault_check key17 (start msg17 [12345])).
  - vm_compute. reflexivity.
  - vm_compute. reflexivity.
  - vm_compute. reflexivity.
  - eexists. split; [reflexivity | vm_compute; reflexivity].
Defined.

(** ** The public transform is injective *)

(** X12: under the public key of a valid key, the public transform never
    maps two blocks to one: two different inputs on which it succeeds get
    different outputs. *)
Theorem public_decrypt_injective
    (rsa : RSA) (p q dd : Z) (nb eb in1 in2 : list byte)
    (min_bits max_bits : Z) (w1 w2 w1' w2' : world) :
  valid_key rsa p q dd ->
  be_value nb = p * q ->
  be_value eb = bn_val (e rsa) ->
  GFp_rsa_public_decrypt nb eb in1 min_bits max_bits w1 = (Returned 1, w1') ->
  GFp_rsa_public_decrypt nb eb in2 min_bits max_bits w2 = (Returned 1, w2') ->
  in1 <> in2 ->
  buffer w1' <> buffer w2'.
Proof.
  intros V Hnb Heb H1 H2 Hne Hsame. apply Hne.
  destruct V as [K X Hq2 Hbal Hev Hed].
  pose proof (ck_prime_p _ _ _ K) as Hp. pose proof (ck_prime_q _ _ _ K) as Hq.
  pose proof (ck_lt _ _ _ K) as Hlt. pose proof (prime_gt_1 _ Hq) as Hq1.
  destruct X as [Hd _ _].
  assert (Hnpos : 0 < p * q) by nia.
  pose proof (ref_public_decrypt_inv nb eb in1 min_bits max_bits w1
                ltac:(now rewrite H1)) as [Ho1 [Hi1 [Hp1 Hl1]]].
  pose proof (ref_public_decrypt_inv nb eb in2 min_bits max_bits w2
                ltac:(now rewrite H2)) as [Ho2 [Hi2 [Hp2 Hl2]]].
  rewrite (ref_public_decrypt _ _ _ _ _ _ Ho1 Hi1 Hp1 Hl1) in H1.
  rewrite (ref_public_decrypt _ _ _ _ _ _ Ho2 Hi2 Hp2 Hl2) in H2.
  inversion H1; subst w1'. inversion H2; subst w2'. cbn [buffer] in Hsame.
  rewrite Hnb, Heb in *.
  pose proof (be_value_range in1) as Hr1.
  pose proof (be_value_range in2) as Hr2.
  assert (Hlen : length (buffer w1) = length (buffer w2))
    by (apply Nat2Z.inj; congruence).
  assert (Hlenin : length in1 = length in2)
    by (apply Nat2Z.inj; congruence).
  pose proof (num_bytes_fits (bn_of_Z (p * q))) as Hfit.
  rewrite bn_val_of_Z, Z.abs_eq in Hfit by lia.
  set (ev := bn_val (e rsa)) in *.
  pose proof (Z.mod_pos_bound (be_value in1 ^ ev) (p * q) Hnpos) as Hs1.
  pose proof (Z.mod_pos_bound (be_value in2 ^ ev) (p * q) Hnpos) as Hs2.
  apply (f_equal be_value) in Hsame.
  rewrite Hlen in Hsame.
  rewrite !be_bytes_inj_value in Hsame by (rewrite <- Ho2 in Hfit; lia).
  assert (Hf : be_value in1 = be_value in2).
  { apply (rsa_pow_injective p q ev dd); trivial; lia. }
  rewrite <- (be_bytes_value in1), <- (be_bytes_value in2).
  now rewrite Hf, Hlenin.
Qed.

(** X12 at the public key of [key17], for the blocks [01 23 45 67 89] and
    [00 00 00 00 02]. *)
Lemma public_decrypt_injective_witness :
  buffer (snd (GFp_rsa_public_decrypt key17_n key17_e msg17 34 8192
                 (start zeros5 [])))
  <> buffer (snd (GFp_rsa_public_decrypt key17_n key17_e
                    [x00; x00; x00; x00; x02] 34 8192 (start zeros5 []))).
Proof.
  apply (public_decrypt_injective key17 131101 131071 495673973
           key17_n key17_e msg17 [x00; x00; x00; x00; x02] 34 8192
           (start zeros5 []) (start zeros5 []) _ _ key17_valid);
    try (vm_compute; reflexivity);
    try apply surjective_pairing.
  discriminate.
Defined.
